(** * The session layer of the language server and its option handling

    A shallow embedding of two Go files of the repository, and a model of
    a third component:

    - [internal/lsp/source/options.go]: the user options of a view and the
      functions [SetOptions] and [Options.set] that apply a batch of JSON
      settings (module [source]);
    - the [session] of package [cache]: the list of views, the URI-to-view
      memo and the overlay table, with [NewView], [createView], [viewOf],
      [viewsOf], [bestView], [removeView], [updateView], [dropView],
      [DidModifyFile] and [GetFile] (module [cache]);
    - the memoized handle on which concurrent callers of [get] share one
      execution of a computation (module [memoize]).

    Go values are modelled as follows.  A [string] is a Rocq [string] (a
    sequence of bytes, so [String.length] is Go's [len]).  A Go map that is
    only read and written by key is a [gmap]; a map that is iterated is an
    association list whose order is the order the iteration happens to
    visit, and every statement quantifies over that order.  A pointer to a
    view is the record of its fields that never change after creation,
    together with the address [ptr] it was allocated at; the part of a view
    that is mutated in place lives in a heap indexed by that address.  A
    function that mutates its receiver returns the new receiver. *)

From Stdlib Require Import ZArith.
From stdpp Require Import base option list gmap strings pretty.

Open Scope string_scope.
Open Scope list_scope.
Set Warnings "-register-all".

(** ** Values, errors and results *)

(** A dynamically typed Go value as [encoding/json] decodes it into an
    [interface{}]: [nil], [bool], [float64] (kept as the decimal numeral of
    the JSON text), [string], [[]interface{}] and
    [map[string]interface{}].  The entries of a [VObject] are listed in the
    order a [range] loop visits them. *)
Inductive value : Type :=
| VNil
| VBool (b : bool)
| VNumber (numeral : string)
| VString (s : string)
| VArray (elems : list value)
| VObject (entries : list (string * value)).

(** The operand of a formatting verb, and an error built by
    [errors.Errorf]: the format and its operands, unrendered. *)
Inductive fmtarg : Type :=
| ArgValue (v : value)
| ArgString (s : string)
| ArgTag (key val : string)
| ArgError (e : error)
with error : Type :=
| Errorf (format : string) (values : list fmtarg).

(** The result of a Go function returning [(T, error)]. *)
Inductive res (A : Type) : Type :=
| Ok (a : A)
| Err (e : error).
Arguments Ok {A} a.
Arguments Err {A} e.

Definition is_Ok {A} (r : res A) : bool :=
  match r with Ok _ => true | Err _ => false end.

(** [strings.HasPrefix(s, prefix)]. *)
Definition HasPrefix (s prefix : string) : bool := String.prefix prefix s.

(** [len(s)] for a string, as an integer. *)
Definition len (s : string) : Z := Z.of_nat (String.length s).

(** The kinds of file that [options.go] names. *)
Inductive FileKind : Type := Go | Mod | Sum.

(** ** Package [source]: the options of a view ([options.go]) *)

Module source.

(** The collaborators of [options.go] that live in the Go standard
    library: the rendering of a value by [fmt.Sprintf("%s", v)] and by
    [fmt.Sprint(v)], and [time.ParseDuration], whose result is a number of
    nanoseconds. *)
Class Runtime : Type := {
  fmt_s : value -> string;
  fmt_Sprint : value -> string;
  ParseDuration : string -> res Z;
}.

Inductive HoverKind : Type :=
| SingleLine
| NoDocumentation
| SynopsisDocumentation
| FullDocumentation
| Structured.

Inductive OptionState : Type :=
| OptionHandled
| OptionDeprecated
| OptionUnexpected.

(** The enumerations of package [protocol] that [Options] stores. *)
Inductive TextDocumentSyncKind : Type := SyncNone | Full | Incremental.
Inductive InsertTextFormat : Type := PlainTextTextFormat | SnippetTextFormat.

Record CompletionOptions : Type := mkCompletionOptions {
  Deep : bool;
  FuzzyMatching : bool;
  CaseSensitive : bool;
  Unimported : bool;
  Documentation : bool;
  FullDocumentationC : bool;
  Placeholders : bool;
  Literal : bool;
  Budget : Z;
}.

(** [Options], field by field.  [ComputeEdits] (a function) and
    [Analyzers] (a table of analyzers) are left out: no function of this
    file reads or writes them.  [DisabledAnalyses] is a
    [map[string]struct{}], that is a set of names. *)
Record Options : Type := mkOptions {
  Env : list string;
  BuildFlags : list string;
  HoverKind_ : HoverKind;
  DisabledAnalyses : gset string;
  StaticCheck : bool;
  GoDiff : bool;
  WatchFileChanges : bool;
  InsertTextFormat_ : InsertTextFormat;
  ConfigurationSupported : bool;
  DynamicConfigurationSupported : bool;
  DynamicWatchedFilesSupported : bool;
  PreferredContentFormat : string;
  LineFoldingOnly : bool;
  SupportedCodeActions : list (FileKind * list (string * bool));
  SupportedCommands : list string;
  TextDocumentSyncKind_ : TextDocumentSyncKind;
  Completion : CompletionOptions;
  LocalPrefix : string;
  VerboseOutput : bool;
  TempModfile : bool;
  LinkTarget : string;
}.

(** [DefaultOptions]; [environ] is what [os.Environ()] returned when the
    package was initialised, and [100 * time.Millisecond] is written in
    nanoseconds. *)
Definition DefaultOptions (environ : list string) : Options := {|
  Env := environ;
  BuildFlags := [];
  HoverKind_ := SynopsisDocumentation;
  DisabledAnalyses := ∅;
  StaticCheck := false;
  GoDiff := true;
  WatchFileChanges := false;
  InsertTextFormat_ := PlainTextTextFormat;
  ConfigurationSupported := false;
  DynamicConfigurationSupported := false;
  DynamicWatchedFilesSupported := false;
  PreferredContentFormat := "markdown";
  LineFoldingOnly := false;
  SupportedCodeActions :=
    [(Go, [("source.organizeImports", true); ("quickfix", true)]);
     (Mod, [("source.organizeImports", true)]);
     (Sum, [])];
  SupportedCommands := ["tidy"];
  TextDocumentSyncKind_ := Incremental;
  Completion := {|
    Deep := true;
    FuzzyMatching := true;
    CaseSensitive := false;
    Unimported := false;
    Documentation := true;
    FullDocumentationC := false;
    Placeholders := false;
    Literal := true;
    Budget := 100 * 1000000;
  |};
  LocalPrefix := "";
  VerboseOutput := false;
  TempModfile := false;
  LinkTarget := "pkg.go.dev";
|}.

Record OptionResult : Type := mkOptionResult {
  Name : string;
  Value : value;
  Error : option error;
  State : OptionState;
  Replacement : string;
}.

Definition OptionResults : Type := list OptionResult.

(** Assignments to one field of a struct. *)
Definition with_Error (e : option error) (r : OptionResult) : OptionResult :=
  mkOptionResult (Name r) (Value r) e (State r) (Replacement r).
Definition with_State (st : OptionState) (r : OptionResult) : OptionResult :=
  mkOptionResult (Name r) (Value r) (Error r) st (Replacement r).
Definition with_Replacement (s : string) (r : OptionResult) : OptionResult :=
  mkOptionResult (Name r) (Value r) (Error r) (State r) s.

Definition with_Completion (c : CompletionOptions) (o : Options) : Options :=
  mkOptions (Env o) (BuildFlags o) (HoverKind_ o) (DisabledAnalyses o)
    (StaticCheck o) (GoDiff o) (WatchFileChanges o) (InsertTextFormat_ o)
    (ConfigurationSupported o) (DynamicConfigurationSupported o)
    (DynamicWatchedFilesSupported o) (PreferredContentFormat o)
    (LineFoldingOnly o) (SupportedCodeActions o) (SupportedCommands o)
    (TextDocumentSyncKind_ o) c (LocalPrefix o) (VerboseOutput o)
    (TempModfile o) (LinkTarget o).
Definition with_Env (x : list string) (o : Options) : Options :=
  mkOptions x (BuildFlags o) (HoverKind_ o) (DisabledAnalyses o)
    (StaticCheck o) (GoDiff o) (WatchFileChanges o) (InsertTextFormat_ o)
    (ConfigurationSupported o) (DynamicConfigurationSupported o)
    (DynamicWatchedFilesSupported o) (PreferredContentFormat o)
    (LineFoldingOnly o) (SupportedCodeActions o) (SupportedCommands o)
    (TextDocumentSyncKind_ o) (Completion o) (LocalPrefix o) (VerboseOutput o)
    (TempModfile o) (LinkTarget o).
Definition with_BuildFlags (x : list string) (o : Options) : Options :=
  mkOptions (Env o) x (HoverKind_ o) (DisabledAnalyses o)
    (StaticCheck o) (GoDiff o) (WatchFileChanges o) (InsertTextFormat_ o)
    (ConfigurationSupported o) (DynamicConfigurationSupported o)
    (DynamicWatchedFilesSupported o) (PreferredContentFormat o)
    (LineFoldingOnly o) (SupportedCodeActions o) (SupportedCommands o)
    (TextDocumentSyncKind_ o) (Completion o) (LocalPrefix o) (VerboseOutput o)
    (TempModfile o) (LinkTarget o).
Definition with_HoverKind (x : HoverKind) (o : Options) : Options :=
  mkOptions (Env o) (BuildFlags o) x (DisabledAnalyses o)
    (StaticCheck o) (GoDiff o) (WatchFileChanges o) (InsertTextFormat_ o)
    (ConfigurationSupported o) (DynamicConfigurationSupported o)
    (DynamicWatchedFilesSupported o) (PreferredContentFormat o)
    (LineFoldingOnly o) (SupportedCodeActions o) (SupportedCommands o)
    (TextDocumentSyncKind_ o) (Completion o) (LocalPrefix o) (VerboseOutput o)
    (TempModfile o) (LinkTarget o).
Definition with_DisabledAnalyses (x : gset string) (o : Options) : Options :=
  mkOptions (Env o) (BuildFlags o) (HoverKind_ o) x
    (StaticCheck o) (GoDiff o) (WatchFileChanges o) (InsertTextFormat_ o)
    (ConfigurationSupported o) (DynamicConfigurationSupported o)
    (DynamicWatchedFilesSupported o) (PreferredContentFormat o)
    (LineFoldingOnly o) (SupportedCodeActions o) (SupportedCommands o)
    (TextDocumentSyncKind_ o) (Completion o) (LocalPrefix o) (VerboseOutput o)
    (TempModfile o) (LinkTarget o).
Definition with_StaticCheck (x : bool) (o : Options) : Options :=
  mkOptions (Env o) (BuildFlags o) (HoverKind_ o) (DisabledAnalyses o)
    x (GoDiff o) (WatchFileChanges o) (InsertTextFormat_ o)
    (ConfigurationSupported o) (DynamicConfigurationSupported o)
    (DynamicWatchedFilesSupported o) (PreferredContentFormat o)
    (LineFoldingOnly o) (SupportedCodeActions o) (SupportedCommands o)
    (TextDocumentSyncKind_ o) (Completion o) (LocalPrefix o) (VerboseOutput o)
    (TempModfile o) (LinkTarget o).
Definition with_GoDiff (x : bool) (o : Options) : Options :=
  mkOptions (Env o) (BuildFlags o) (HoverKind_ o) (DisabledAnalyses o)
    (StaticCheck o) x (WatchFileChanges o) (InsertTextFormat_ o)
    (ConfigurationSupported o) (DynamicConfigurationSupported o)
    (DynamicWatchedFilesSupported o) (PreferredContentFormat o)
    (LineFoldingOnly o) (SupportedCodeActions o) (SupportedCommands o)
    (TextDocumentSyncKind_ o) (Completion o) (LocalPrefix o) (VerboseOutput o)
    (TempModfile o) (LinkTarget o).
Definition with_WatchFileChanges (x : bool) (o : Options) : Options :=
  mkOptions (Env o) (BuildFlags o) (HoverKind_ o) (DisabledAnalyses o)
    (StaticCheck o) (GoDiff o) x (InsertTextFormat_ o)
    (ConfigurationSupported o) (DynamicConfigurationSupported o)
    (DynamicWatchedFilesSupported o) (PreferredContentFormat o)
    (LineFoldingOnly o) (SupportedCodeActions o) (SupportedCommands o)
    (TextDocumentSyncKind_ o) (Completion o) (LocalPrefix o) (VerboseOutput o)
    (TempModfile o) (LinkTarget o).
Definition with_TextDocumentSyncKind (x : TextDocumentSyncKind) (o : Options) : Options :=
  mkOptions (Env o) (BuildFlags o) (HoverKind_ o) (DisabledAnalyses o)
    (StaticCheck o) (GoDiff o) (WatchFileChanges o) (InsertTextFormat_ o)
    (ConfigurationSupported o) (DynamicConfigurationSupported o)
    (DynamicWatchedFilesSupported o) (PreferredContentFormat o)
    (LineFoldingOnly o) (SupportedCodeActions o) (SupportedCommands o)
    x (Completion o) (LocalPrefix o) (VerboseOutput o)
    (TempModfile o) (LinkTarget o).
Definition with_LocalPrefix (x : string) (o : Options) : Options :=
  mkOptions (Env o) (BuildFlags o) (HoverKind_ o) (DisabledAnalyses o)
    (StaticCheck o) (GoDiff o) (WatchFileChanges o) (InsertTextFormat_ o)
    (ConfigurationSupported o) (DynamicConfigurationSupported o)
    (DynamicWatchedFilesSupported o) (PreferredContentFormat o)
    (LineFoldingOnly o) (SupportedCodeActions o) (SupportedCommands o)
    (TextDocumentSyncKind_ o) (Completion o) x (VerboseOutput o)
    (TempModfile o) (LinkTarget o).
Definition with_VerboseOutput (x : bool) (o : Options) : Options :=
  mkOptions (Env o) (BuildFlags o) (HoverKind_ o) (DisabledAnalyses o)
    (StaticCheck o) (GoDiff o) (WatchFileChanges o) (InsertTextFormat_ o)
    (ConfigurationSupported o) (DynamicConfigurationSupported o)
    (DynamicWatchedFilesSupported o) (PreferredContentFormat o)
    (LineFoldingOnly o) (SupportedCodeActions o) (SupportedCommands o)
    (TextDocumentSyncKind_ o) (Completion o) (LocalPrefix o) x
    (TempModfile o) (LinkTarget o).
Definition with_TempModfile (x : bool) (o : Options) : Options :=
  mkOptions (Env o) (BuildFlags o) (HoverKind_ o) (DisabledAnalyses o)
    (StaticCheck o) (GoDiff o) (WatchFileChanges o) (InsertTextFormat_ o)
    (ConfigurationSupported o) (DynamicConfigurationSupported o)
    (DynamicWatchedFilesSupported o) (PreferredContentFormat o)
    (LineFoldingOnly o) (SupportedCodeActions o) (SupportedCommands o)
    (TextDocumentSyncKind_ o) (Completion o) (LocalPrefix o) (VerboseOutput o)
    x (LinkTarget o).
Definition with_LinkTarget (x : string) (o : Options) : Options :=
  mkOptions (Env o) (BuildFlags o) (HoverKind_ o) (DisabledAnalyses o)
    (StaticCheck o) (GoDiff o) (WatchFileChanges o) (InsertTextFormat_ o)
    (ConfigurationSupported o) (DynamicConfigurationSupported o)
    (DynamicWatchedFilesSupported o) (PreferredContentFormat o)
    (LineFoldingOnly o) (SupportedCodeActions o) (SupportedCommands o)
    (TextDocumentSyncKind_ o) (Completion o) (LocalPrefix o) (VerboseOutput o)
    (TempModfile o) x.

Definition with_Deep (x : bool) (c : CompletionOptions) : CompletionOptions :=
  mkCompletionOptions x (FuzzyMatching c) (CaseSensitive c) (Unimported c)
    (Documentation c) (FullDocumentationC c) (Placeholders c) (Literal c) (Budget c).
Definition with_FuzzyMatching (x : bool) (c : CompletionOptions) : CompletionOptions :=
  mkCompletionOptions (Deep c) x (CaseSensitive c) (Unimported c)
    (Documentation c) (FullDocumentationC c) (Placeholders c) (Literal c) (Budget c).
Definition with_CaseSensitive (x : bool) (c : CompletionOptions) : CompletionOptions :=
  mkCompletionOptions (Deep c) (FuzzyMatching c) x (Unimported c)
    (Documentation c) (FullDocumentationC c) (Placeholders c) (Literal c) (Budget c).
Definition with_Unimported (x : bool) (c : CompletionOptions) : CompletionOptions :=
  mkCompletionOptions (Deep c) (FuzzyMatching c) (CaseSensitive c) x
    (Documentation c) (FullDocumentationC c) (Placeholders c) (Literal c) (Budget c).
Definition with_Documentation (x : bool) (c : CompletionOptions) : CompletionOptions :=
  mkCompletionOptions (Deep c) (FuzzyMatching c) (CaseSensitive c) (Unimported c)
    x (FullDocumentationC c) (Placeholders c) (Literal c) (Budget c).
Definition with_Placeholders (x : bool) (c : CompletionOptions) : CompletionOptions :=
  mkCompletionOptions (Deep c) (FuzzyMatching c) (CaseSensitive c) (Unimported c)
    (Documentation c) (FullDocumentationC c) x (Literal c) (Budget c).
Definition with_Budget (x : Z) (c : CompletionOptions) : CompletionOptions :=
  mkCompletionOptions (Deep c) (FuzzyMatching c) (CaseSensitive c) (Unimported c)
    (Documentation c) (FullDocumentationC c) (Placeholders c) (Literal c) x.

(** The dynamic type of a value as the verb [%T] prints it. *)
Definition typeName (v : value) : string :=
  match v with
  | VNil => "<nil>"
  | VBool _ => "bool"
  | VNumber _ => "float64"
  | VString _ => "string"
  | VArray _ => "[]interface {}"
  | VObject _ => "map[string]interface {}"
  end.

(** [r.errorf(msg, values...)]. *)
Definition errorf (r : OptionResult) (msg : string) (values : list fmtarg) : OptionResult :=
  with_Error (Some (Errorf msg values)) r.

(** [r.asBool()]: the result after the call, then the two values returned. *)
Definition asBool (r : OptionResult) : OptionResult * (bool * bool) :=
  match Value r with
  | VBool b => (r, (b, true))
  | _ =>
      (errorf r "Invalid type %T for bool option %q" [ArgValue (Value r); ArgString (Name r)],
       (false, false))
  end.

(** [r.asString()]. *)
Definition asString (r : OptionResult) : OptionResult * (string * bool) :=
  match Value r with
  | VString b => (r, (b, true))
  | _ =>
      (errorf r "Invalid type %T for string option %q" [ArgValue (Value r); ArgString (Name r)],
       ("", false))
  end.

(** [r.setBool(&b)]: the result after the call and the content of [b]. *)
Definition setBool (r : OptionResult) (b : bool) : OptionResult * bool :=
  let '(r, (v, ok)) := asBool r in
  if ok then (r, v) else (r, b).

Section set.
Context `{Runtime}.

(** The loop of the case ["env"]: one [KEY=value] string per entry. *)
Definition appendEnv (env : list string) (menv : list (string * value)) : list string :=
  foldl (fun env kv => (env ++ [kv.1 +:+ "=" +:+ fmt_s kv.2])%list) env menv.

(** The inner switch of the case ["hoverKind"]. *)
Definition setHoverKind (o : Options) (result : OptionResult) (hoverKind : string)
  : Options * OptionResult :=
  if String.eqb hoverKind "NoDocumentation" then (with_HoverKind NoDocumentation o, result)
  else if String.eqb hoverKind "SingleLine" then (with_HoverKind SingleLine o, result)
  else if String.eqb hoverKind "SynopsisDocumentation" then
    (with_HoverKind SynopsisDocumentation o, result)
  else if String.eqb hoverKind "FullDocumentation" then
    (with_HoverKind FullDocumentation o, result)
  else if String.eqb hoverKind "Structured" then (with_HoverKind Structured o, result)
  else (o, errorf result "Unsupported hover kind" [ArgTag "HoverKind" hoverKind]).

(** [o.set(name, value)]: the options after the call and the result. *)
Definition set (o : Options) (name : string) (value : value) : Options * OptionResult :=
  let result := mkOptionResult name value None OptionHandled "" in
  if String.eqb name "env" then
    match value with
    | VObject menv => (with_Env (appendEnv (Env o) menv) o, result)
    | _ => (o, errorf result "invalid config gopls.env type %T" [ArgValue value])
    end
  else if String.eqb name "buildFlags" then
    match value with
    | VArray iflags => (with_BuildFlags (map fmt_s iflags) o, result)
    | _ => (o, errorf result "invalid config gopls.buildFlags type %T" [ArgValue value])
    end
  else if String.eqb name "noIncrementalSync" then
    let '(result, (v, ok)) := asBool result in
    if ok && v then (with_TextDocumentSyncKind Full o, result) else (o, result)
  else if String.eqb name "watchFileChanges" then
    let '(result, b) := setBool result (WatchFileChanges o) in
    (with_WatchFileChanges b o, result)
  else if String.eqb name "completionDocumentation" then
    let '(result, b) := setBool result (Documentation (Completion o)) in
    (with_Completion (with_Documentation b (Completion o)) o, result)
  else if String.eqb name "usePlaceholders" then
    let '(result, b) := setBool result (Placeholders (Completion o)) in
    (with_Completion (with_Placeholders b (Completion o)) o, result)
  else if String.eqb name "deepCompletion" then
    let '(result, b) := setBool result (Deep (Completion o)) in
    (with_Completion (with_Deep b (Completion o)) o, result)
  else if String.eqb name "fuzzyMatching" then
    let '(result, b) := setBool result (FuzzyMatching (Completion o)) in
    (with_Completion (with_FuzzyMatching b (Completion o)) o, result)
  else if String.eqb name "caseSensitiveCompletion" then
    let '(result, b) := setBool result (CaseSensitive (Completion o)) in
    (with_Completion (with_CaseSensitive b (Completion o)) o, result)
  else if String.eqb name "completeUnimported" then
    let '(result, b) := setBool result (Unimported (Completion o)) in
    (with_Completion (with_Unimported b (Completion o)) o, result)
  else if String.eqb name "completionBudget" then
    let '(result, (v, ok)) := asString result in
    if ok then
      match ParseDuration v with
      | Err err =>
          (o, errorf result "failed to parse duration %q: %v" [ArgString v; ArgError err])
      | Ok d => (with_Completion (with_Budget d (Completion o)) o, result)
      end
    else (o, result)
  else if String.eqb name "hoverKind" then
    match value with
    | VString hoverKind => setHoverKind o result hoverKind
    | _ =>
        (o, errorf result "invalid type %T for string option %q"
              [ArgValue value; ArgString name])
    end
  else if String.eqb name "linkTarget" then
    match value with
    | VString linkTarget => (with_LinkTarget linkTarget o, result)
    | _ =>
        (o, errorf result "invalid type %T for string option %q"
              [ArgValue value; ArgString name])
    end
  else if String.eqb name "experimentalDisabledAnalyses" then
    match value with
    | VArray disabledAnalyses =>
        (with_DisabledAnalyses
           (foldl (fun m a => {[fmt_Sprint a]} ∪ m) ∅ disabledAnalyses) o,
         result)
    | _ =>
        (o, errorf result "Invalid type %T for []string option %q"
              [ArgValue value; ArgString name])
    end
  else if String.eqb name "staticcheck" then
    let '(result, b) := setBool result (StaticCheck o) in
    (with_StaticCheck b o, result)
  else if String.eqb name "go-diff" then
    let '(result, b) := setBool result (GoDiff o) in
    (with_GoDiff b o, result)
  else if String.eqb name "local" then
    match value with
    | VString localPrefix => (with_LocalPrefix localPrefix o, result)
    | _ =>
        (o, errorf result "invalid type %T for string option %q"
              [ArgValue value; ArgString name])
    end
  else if String.eqb name "verboseOutput" then
    let '(result, b) := setBool result (VerboseOutput o) in
    (with_VerboseOutput b o, result)
  else if String.eqb name "tempModfile" then
    let '(result, b) := setBool result (TempModfile o) in
    (with_TempModfile b o, result)
  else if String.eqb name "wantSuggestedFixes" then
    (o, with_State OptionDeprecated result)
  else if String.eqb name "disableDeepCompletion" then
    (o, with_Replacement "deepCompletion" (with_State OptionDeprecated result))
  else if String.eqb name "disableFuzzyMatching" then
    (o, with_Replacement "fuzzyMatching" (with_State OptionDeprecated result))
  else if String.eqb name "wantCompletionDocumentation" then
    (o, with_Replacement "completionDocumentation" (with_State OptionDeprecated result))
  else if String.eqb name "wantUnimportedCompletions" then
    (o, with_Replacement "completeUnimported" (with_State OptionDeprecated result))
  else (o, with_State OptionUnexpected result).

(** The loop of [SetOptions] over the entries of the map, in the order the
    [range] visits them. *)
Definition setAll (options : Options) (results : OptionResults)
    (opts : list (string * value)) : Options * OptionResults :=
  foldl (fun acc nv =>
           let '(o, r) := set acc.1 nv.1 nv.2 in (o, (acc.2 ++ [r])%list))
        (options, results) opts.

(** [SetOptions(options, opts)]: the options after the call and the
    results. *)
Definition SetOptions (options : Options) (opts : value) : Options * OptionResults :=
  match opts with
  | VNil => (options, [])
  | VObject opts => setAll options [] opts
  | _ =>
      (options,
       [mkOptionResult "" opts
          (Some (Errorf "Invalid options type %T" [ArgValue opts])) OptionHandled ""])
  end.





End set.

(** ** The capabilities of the client *)

(** The fields of [protocol.ClientCapabilities] that [options.go] reads:
    [TextDocument.Completion.CompletionItem.SnippetSupport],
    [Workspace.Configuration],
    [Workspace.DidChangeConfiguration.DynamicRegistration],
    [Workspace.DidChangeWatchedFiles.DynamicRegistration],
    [TextDocument.Hover.ContentFormat] and
    [TextDocument.FoldingRange.LineFoldingOnly]. *)
Record ClientCapabilities : Type := mkClientCapabilities {
  SnippetSupport : bool;
  WorkspaceConfiguration : bool;
  DidChangeConfigurationDynamic : bool;
  DidChangeWatchedFilesDynamic : bool;
  HoverContentFormat : list string;
  FoldingRangeLineFoldingOnly : bool;
}.

Definition with_InsertTextFormat (x : InsertTextFormat) (o : Options) : Options :=
  mkOptions (Env o) (BuildFlags o) (HoverKind_ o) (DisabledAnalyses o)
    (StaticCheck o) (GoDiff o) (WatchFileChanges o) x
    (ConfigurationSupported o) (DynamicConfigurationSupported o)
    (DynamicWatchedFilesSupported o) (PreferredContentFormat o)
    (LineFoldingOnly o) (SupportedCodeActions o) (SupportedCommands o)
    (TextDocumentSyncKind_ o) (Completion o) (LocalPrefix o) (VerboseOutput o)
    (TempModfile o) (LinkTarget o).
Definition with_ConfigurationSupported (x : bool) (o : Options) : Options :=
  mkOptions (Env o) (BuildFlags o) (HoverKind_ o) (DisabledAnalyses o)
    (StaticCheck o) (GoDiff o) (WatchFileChanges o) (InsertTextFormat_ o)
    x (DynamicConfigurationSupported o)
    (DynamicWatchedFilesSupported o) (PreferredContentFormat o)
    (LineFoldingOnly o) (SupportedCodeActions o) (SupportedCommands o)
    (TextDocumentSyncKind_ o) (Completion o) (LocalPrefix o) (VerboseOutput o)
    (TempModfile o) (LinkTarget o).
Definition with_DynamicConfigurationSupported (x : bool) (o : Options) : Options :=
  mkOptions (Env o) (BuildFlags o) (HoverKind_ o) (DisabledAnalyses o)
    (StaticCheck o) (GoDiff o) (WatchFileChanges o) (InsertTextFormat_ o)
    (ConfigurationSupported o) x
    (DynamicWatchedFilesSupported o) (PreferredContentFormat o)
    (LineFoldingOnly o) (SupportedCodeActions o) (SupportedCommands o)
    (TextDocumentSyncKind_ o) (Completion o) (LocalPrefix o) (VerboseOutput o)
    (TempModfile o) (LinkTarget o).
Definition with_DynamicWatchedFilesSupported (x : bool) (o : Options) : Options :=
  mkOptions (Env o) (BuildFlags o) (HoverKind_ o) (DisabledAnalyses o)
    (StaticCheck o) (GoDiff o) (WatchFileChanges o) (InsertTextFormat_ o)
    (ConfigurationSupported o) (DynamicConfigurationSupported o)
    x (PreferredContentFormat o)
    (LineFoldingOnly o) (SupportedCodeActions o) (SupportedCommands o)
    (TextDocumentSyncKind_ o) (Completion o) (LocalPrefix o) (VerboseOutput o)
    (TempModfile o) (LinkTarget o).
Definition with_PreferredContentFormat (x : string) (o : Options) : Options :=
  mkOptions (Env o) (BuildFlags o) (HoverKind_ o) (DisabledAnalyses o)
    (StaticCheck o) (GoDiff o) (WatchFileChanges o) (InsertTextFormat_ o)
    (ConfigurationSupported o) (DynamicConfigurationSupported o)
    (DynamicWatchedFilesSupported o) x
    (LineFoldingOnly o) (SupportedCodeActions o) (SupportedCommands o)
    (TextDocumentSyncKind_ o) (Completion o) (LocalPrefix o) (VerboseOutput o)
    (TempModfile o) (LinkTarget o).
Definition with_LineFoldingOnly (x : bool) (o : Options) : Options :=
  mkOptions (Env o) (BuildFlags o) (HoverKind_ o) (DisabledAnalyses o)
    (StaticCheck o) (GoDiff o) (WatchFileChanges o) (InsertTextFormat_ o)
    (ConfigurationSupported o) (DynamicConfigurationSupported o)
    (DynamicWatchedFilesSupported o) (PreferredContentFormat o)
    x (SupportedCodeActions o) (SupportedCommands o)
    (TextDocumentSyncKind_ o) (Completion o) (LocalPrefix o) (VerboseOutput o)
    (TempModfile o) (LinkTarget o).

(** [o.ForClientCapabilities(caps)]: the options after the call. *)
Definition ForClientCapabilities (o : Options) (caps : ClientCapabilities) : Options :=
  (* Check if the client supports snippets in completion items. *)
  let o := if SnippetSupport caps then with_InsertTextFormat SnippetTextFormat o else o in
  (* Check if the client supports configuration messages. *)
  let o := with_ConfigurationSupported (WorkspaceConfiguration caps) o in
  let o := with_DynamicConfigurationSupported (DidChangeConfigurationDynamic caps) o in
  let o := with_DynamicWatchedFilesSupported (DidChangeWatchedFilesDynamic caps) o in
  (* Check which types of content format are supported by this client. *)
  let o :=
    match HoverContentFormat caps with
    | format :: _ => with_PreferredContentFormat format o
    | [] => o
    end in
  (* Check if the client supports only line folding. *)
  with_LineFoldingOnly (FoldingRangeLineFoldingOnly caps) o.

(** ** The effect of [set], field by field

    [set] as a record of its effects: each field of the options has one
    option that writes it, or none.  [set_fieldwise] proves that this is
    what [set] leaves; the properties of [SetOptions] that compare two
    batches are proved field by field on it. *)

Section fieldwise.
Context `{Runtime}.

(** What [set] writes to a boolean field that the option [target] owns. *)
Definition setsBool (target n : string) (v : value) (old : bool) : bool :=
  if String.eqb n target then match v with VBool b => b | _ => old end else old.

(** What [set] writes to a string field that the option [target] owns. *)
Definition setsString (target n : string) (v : value) (old : string) : string :=
  if String.eqb n target then match v with VString x => x | _ => old end else old.

(** The options after [set], one field at a time: each field has one
    option that writes it, or none. *)
Definition fieldwise (n : string) (v : value) (o : Options) : Options :=
  mkOptions
    (if String.eqb n "env" then
       match v with VObject menv => appendEnv (Env o) menv | _ => Env o end
     else Env o)
    (if String.eqb n "buildFlags" then
       match v with VArray iflags => map fmt_s iflags | _ => BuildFlags o end
     else BuildFlags o)
    (if String.eqb n "hoverKind" then
       match v with
       | VString k =>
           if String.eqb k "NoDocumentation" then NoDocumentation
           else if String.eqb k "SingleLine" then SingleLine
           else if String.eqb k "SynopsisDocumentation" then SynopsisDocumentation
           else if String.eqb k "FullDocumentation" then FullDocumentation
           else if String.eqb k "Structured" then Structured
           else HoverKind_ o
       | _ => HoverKind_ o
       end
     else HoverKind_ o)
    (if String.eqb n "experimentalDisabledAnalyses" then
       match v with
       | VArray l => foldl (fun m a => {[fmt_Sprint a]} ∪ m) ∅ l
       | _ => DisabledAnalyses o
       end
     else DisabledAnalyses o)
    (setsBool "staticcheck" n v (StaticCheck o))
    (setsBool "go-diff" n v (GoDiff o))
    (setsBool "watchFileChanges" n v (WatchFileChanges o))
    (InsertTextFormat_ o)
    (ConfigurationSupported o)
    (DynamicConfigurationSupported o)
    (DynamicWatchedFilesSupported o)
    (PreferredContentFormat o)
    (LineFoldingOnly o)
    (SupportedCodeActions o)
    (SupportedCommands o)
    (if String.eqb n "noIncrementalSync" then
       match v with VBool true => Full | _ => TextDocumentSyncKind_ o end
     else TextDocumentSyncKind_ o)
    (mkCompletionOptions
       (setsBool "deepCompletion" n v (Deep (Completion o)))
       (setsBool "fuzzyMatching" n v (FuzzyMatching (Completion o)))
       (setsBool "caseSensitiveCompletion" n v (CaseSensitive (Completion o)))
       (setsBool "completeUnimported" n v (Unimported (Completion o)))
       (setsBool "completionDocumentation" n v (Documentation (Completion o)))
       (FullDocumentationC (Completion o))
       (setsBool "usePlaceholders" n v (Placeholders (Completion o)))
       (Literal (Completion o))
       (if String.eqb n "completionBudget" then
          match v with
          | VString d =>
              match ParseDuration d with Ok z => z | Err _ => Budget (Completion o) end
          | _ => Budget (Completion o)
          end
        else Budget (Completion o)))
    (setsString "local" n v (LocalPrefix o))
    (setsBool "verboseOutput" n v (VerboseOutput o))
    (setsBool "tempModfile" n v (TempModfile o))
    (setsString "linkTarget" n v (LinkTarget o)).

(** The options after the loop of [SetOptions]. *)
Definition applyAll (o : Options) (entries : list (string * value)) : Options :=
  foldl (fun o nv => (set o nv.1 nv.2).1) o entries.

End fieldwise.

(** ** Two visits of one map

    Go fixes no order for a [range] over a map, and two loops over the same
    map need not visit it in the same order.  The list of a [VObject] is
    the order of one visit.  The code has two such loops: the one of
    [SetOptions] over the batch, and the one of [set] over the map of
    ["env"]; every other value is used as a whole.

    [revisited e e'] relates an entry of a batch to what another visit of
    the batch finds under the same key: the same entry, or, for ["env"],
    the same map with its entries in another order. *)
Inductive revisited : string * value -> string * value -> Prop :=
| revisited_same e : revisited e e
| revisited_env menv menv' :
    menv ≡ₚ menv' -> revisited ("env", VObject menv) ("env", VObject menv').

(** Two visits of the same batch: the entries in another order, and the
    map of ["env"] in another order. *)
Definition sameBatch (entries entries' : list (string * value)) : Prop :=
  exists middle, entries ≡ₚ middle /\ Forall2 revisited middle entries'.

(** Two results for the same entry, found by two visits. *)
Definition sameResult (r r' : OptionResult) : Prop :=
  revisited (Name r, Value r) (Name r', Value r') /\
  Error r = Error r' /\ State r = State r' /\ Replacement r = Replacement r'.

End source.

(** ** Package [cache]: the session *)

Module cache.
Import source.

(** [span.URI]. *)
Definition URI : Type := string.

(** [viewIndex] is an [int64]: [atomic.AddInt64] wraps around. *)
Definition wrap64 (z : Z) : Z := (z + 2 ^ 63) `mod` 2 ^ 64 - 2 ^ 63.

(** What [session.go] uses and the other files of packages [cache],
    [source], [span] and [debug] define.  [World] is everything outside
    the session that these functions read and write: the content store of
    the shared cache, the file system, the go command.  [ViewState] holds
    the fields of a [view] that are mutated after its creation (its current
    snapshot, its file tables, its set of ignored URIs); [zeroViewState] is
    the zero value of that struct.  A method with a pointer receiver takes
    the state of its receiver and returns the new one. *)
Class Collaborators : Type := {
  World : Type;
  ViewState : Type;
  Snapshot : Type;
  Metadata : Type;
  Modfiles : Type;
  FileBase : Type;
  Overlay : Type;
  FileHandle : Type;
  FileAction : Type;
  FileModification : Type;
  (** Fields. *)
  modURI : FileModification -> URI;
  modAction : FileModification -> FileAction;
  kind : FileBase -> FileKind;
  fileURI : FileBase -> URI;
  snapshotOf : ViewState -> Snapshot;
  (** An [*overlay] seen as a [source.FileHandle]. *)
  overlayHandle : Overlay -> FileHandle;
  zeroViewState : ViewState;
  (** The struct literal of [createView], from the fields it is given:
      [id], [options], [name], [modfiles], [folder]. *)
  newViewState : string -> Options -> string -> Modfiles -> URI -> ViewState;
  (** The field [options] of the cache, [nil] or a function. *)
  cacheOptions : option (Options -> Options);
  Filename : URI -> string;
  getModfiles : World -> string -> Options -> World * (Modfiles * option error);
  buildBuiltinPackage : World -> ViewState -> World * ViewState;
  load : World -> ViewState -> URI -> World * ViewState * res Metadata;
  checkWorkspacePackages : World -> ViewState -> Metadata -> World * ViewState * option error;
  shutdown : World -> ViewState -> World * ViewState;
  Ignore : ViewState -> URI -> ViewState * bool;
  getFileLocked : World -> ViewState -> URI -> World * ViewState * res FileBase;
  invalidateContent :
    World -> ViewState -> URI -> FileKind -> FileAction -> World * ViewState * Snapshot;
  updateOverlay :
    World -> gmap URI Overlay -> FileModification -> World * gmap URI Overlay * option error;
  cacheGetFile : World -> URI -> FileKind -> World * FileHandle;
}.

#[export] Instance ViewState_inhabited `{Collaborators} : Inhabited ViewState :=
  populate zeroViewState.

Section session.
Context `{Collaborators}.

(** A [*view]: the address of the object and the fields that no function
    assigns after [createView].  Two pointers are equal when their
    addresses are. *)
Record view : Type := mkView {
  ptr : nat;
  id : string;
  options : Options;
  name : string;
  modfiles : Modfiles;
  folder : URI;
}.

(** What the session reports to its surroundings: [log.Error] and the
    calls to package [debug]. *)
Inductive event : Type :=
| LogError (msg : string) (err : error) (directory : URI)
| AddView (v : nat)
| DropSession.

(** The fields [views], [viewMap], [overlays] and [options] of a session,
    and the state around it that its methods reach: the package variable
    [viewIndex], the view objects by address with the number of them
    allocated so far, the world, and the events reported.  A [nil] map and
    an empty one read alike and are both the empty [gmap]. *)
Record session : Type := mkSession {
  sessionOptions : Options;
  views : list view;
  viewMap : gmap URI view;
  overlays : gmap URI Overlay;
  viewIndex : Z;
  allocated : nat;
  objects : gmap nat ViewState;
  world : World;
  events : list event;
}.

Definition with_views (x : list view) (s : session) : session :=
  mkSession (sessionOptions s) x (viewMap s) (overlays s) (viewIndex s)
    (allocated s) (objects s) (world s) (events s).
Definition with_viewMap (x : gmap URI view) (s : session) : session :=
  mkSession (sessionOptions s) (views s) x (overlays s) (viewIndex s)
    (allocated s) (objects s) (world s) (events s).
Definition with_overlays (x : gmap URI Overlay) (s : session) : session :=
  mkSession (sessionOptions s) (views s) (viewMap s) x (viewIndex s)
    (allocated s) (objects s) (world s) (events s).
Definition with_objects (x : gmap nat ViewState) (s : session) : session :=
  mkSession (sessionOptions s) (views s) (viewMap s) (overlays s) (viewIndex s)
    (allocated s) x (world s) (events s).
Definition with_world (x : World) (s : session) : session :=
  mkSession (sessionOptions s) (views s) (viewMap s) (overlays s) (viewIndex s)
    (allocated s) (objects s) x (events s).
Definition report (e : list event) (s : session) : session :=
  mkSession (sessionOptions s) (views s) (viewMap s) (overlays s) (viewIndex s)
    (allocated s) (objects s) (world s) (events s ++ e)%list.

(** Modelled from the spec: the session that [NewSession] of the cache
    returns, a function the source files at hand do not include.  A
    session is a container of views and of the overlay table with no state
    of its own: a new one holds no view, no memo entry and no overlay. *)
Definition emptySession (o : Options) (index : Z) (w : World) : session :=
  mkSession o [] ∅ ∅ index 0 ∅ w [].

(** [s.Options()] and [s.SetOptions(options)]. *)
Definition sessionSetOptions (s : session) (o : Options) : session :=
  mkSession o (views s) (viewMap s) (overlays s) (viewIndex s)
    (allocated s) (objects s) (world s) (events s).

(** [s.createView(ctx, name, folder, options)].  The third component of
    the result is the [error] returned. *)
Definition createView (s : session) (name : string) (folder : URI) (options : Options)
  : session * (view * Snapshot * option error) :=
  let index := wrap64 (viewIndex s + 1) in
  let '(w, (modfiles, err)) := getModfiles (world s) (Filename folder) options in
  let logged :=
    match err with
    | Some err => [LogError "error getting modfiles" err folder]
    | None => []
    end in
  let p := allocated s in
  let vid := pretty index in
  let voptions :=
    match cacheOptions with
    | Some f => f options
    | None => options
    end in
  let v := mkView p vid voptions name modfiles folder in
  let st := newViewState vid voptions name modfiles folder in
  let '(w, st) := buildBuiltinPackage w st in
  let '(w, st, r) := load w st folder in
  let finish w st logged :=
    (mkSession (sessionOptions s) (views s) (viewMap s) (overlays s) index
       (S p) (<[p := st]> (objects s)) w (events s ++ logged)%list,
     (v, snapshotOf st, None)) in
  match r with
  | Err err =>
      (* Suppress all errors. *)
      finish w st (logged ++ [LogError "failed to load snapshot" err folder])%list
  | Ok m =>
      let '(w, st, err) := checkWorkspacePackages w st m in
      match err with
      | Some err =>
          (* Suppress all errors. *)
          finish w st (logged ++ [LogError "failed to check snapshot" err folder])%list
      | None => finish w st (logged ++ [AddView p])%list
      end
  end.

(** The failure that [createView] logs and suppresses, if any: that of
    the initial load, or else that of the check of the workspace packages.
    The calls are those of [createView], in its order. *)
Definition suppressed (s : session) (name : string) (folder : URI) (options : Options)
  : option (string * error) :=
  let '(w, (modfiles, _)) := getModfiles (world s) (Filename folder) options in
  let vid := pretty (wrap64 (viewIndex s + 1)) in
  let voptions :=
    match cacheOptions with
    | Some f => f options
    | None => options
    end in
  let '(w, st) := buildBuiltinPackage w (newViewState vid voptions name modfiles folder) in
  let '(w, st, r) := load w st folder in
  match r with
  | Err err => Some ("failed to load snapshot", err)
  | Ok m =>
      let '(w, st, err) := checkWorkspacePackages w st m in
      match err with
      | Some err => Some ("failed to check snapshot", err)
      | None => None
      end
  end.

(** [s.NewView(ctx, name, folder, options)]. *)
Definition NewView (s : session) (name : string) (folder : URI) (options : Options)
  : session * res (view * Snapshot) :=
  let '(s, (v, snapshot, err)) := createView s name folder options in
  match err with
  | Some err => (s, Err err)
  | None =>
      (* we always need to drop the view map *)
      (with_viewMap ∅ (with_views (views s ++ [v])%list s), Ok (v, snapshot))
  end.

(** [s.Shutdown(ctx)]. *)
Definition shutdownAll (vs : list view) (w : World) (h : gmap nat ViewState)
  : World * gmap nat ViewState :=
  foldl (fun wh v =>
           let '(w, st) := shutdown wh.1 (wh.2 !!! ptr v) in
           (w, <[ptr v := st]> wh.2))
        (w, h) vs.

Definition Shutdown (s : session) : session :=
  let '(w, h) := shutdownAll (views s) (world s) (objects s) in
  report [DropSession] (with_world w (with_objects h (with_viewMap ∅ (with_views [] s)))).

(** [s.View(name)]: [None] is the [nil] view. *)
Definition View (s : session) (n : string) : option view :=
  List.find (fun v => String.eqb (name v) n) (views s).

(** [s.viewsOf(uri)]. *)
Definition viewsOf (s : session) (uri : URI) : list view :=
  List.filter (fun v => HasPrefix uri (folder v)) (views s).

(** [s.Views()]. *)
Definition Views (s : session) : list view := views s.

(** One turn of the loop of [bestView]: [longest] before and after. *)
Definition bestViewStep (uri : URI) (longest : option view) (v : view) : option view :=
  match longest with
  | Some l =>
      if (len (folder l) >? len (folder v))%Z then longest
      else if HasPrefix uri (folder v) then Some v else longest
  | None => if HasPrefix uri (folder v) then Some v else longest
  end.

(** [s.bestView(uri)]. *)
Definition bestView (s : session) (uri : URI) : res view :=
  match views s with
  | [] => Err (Errorf "no views in the session" [])
  | first :: _ =>
      match foldl (bestViewStep uri) None (views s) with
      | Some longest => Ok longest
      | None => Ok first
      end
  end.

(** What [longest] holds after the loop has gone through [vs]: nothing
    when no folder of [vs] is a prefix of [uri]; otherwise a view of [vs]
    whose folder is a prefix of [uri], at least as long as every such
    folder before it in [vs] and longer than every such folder after it. *)
Definition chosen (uri : URI) (vs : list view) (r : option view) : Prop :=
  match r with
  | None => Forall (fun v => HasPrefix uri (folder v) = false) vs
  | Some l =>
      exists pre post,
        vs = pre ++ l :: post /\
        HasPrefix uri (folder l) = true /\
        (forall v, v ∈ pre -> HasPrefix uri (folder v) = true ->
                   (len (folder v) <= len (folder l))%Z) /\
        (forall v, v ∈ post -> HasPrefix uri (folder v) = true ->
                   (len (folder v) < len (folder l))%Z)
  end.

(** [s.viewOf(uri)], which [s.ViewOf(uri)] returns as it is. *)
Definition viewOf (s : session) (uri : URI) : session * res view :=
  match viewMap s !! uri with
  | Some v => (s, Ok v)
  | None =>
      match bestView s uri with
      | Err err => (s, Err err)
      | Ok v => (with_viewMap (<[uri := v]> (viewMap s)) s, Ok v)
      end
  end.

Definition ViewOf (s : session) (uri : URI) : session * res view := viewOf s uri.

(** The index of the first element of [l] that satisfies [P], counted
    from [i]: the loop [for i := range s.views] of [dropView]. *)
Fixpoint findIndex {A} (P : A -> bool) (l : list A) (i : nat) : option nat :=
  match l with
  | [] => None
  | x :: l => if P x then Some i else findIndex P l (S i)
  end.

(** [s.dropView(ctx, v)].  The slot [s.views[i]], which the function sets
    to [nil], is left as it is here: both callers assign it again before
    they release [viewMu], and nothing reads it in between. *)
Definition dropView (s : session) (v : view) : session * res nat :=
  (* we always need to drop the view map *)
  let s := with_viewMap ∅ s in
  match findIndex (fun v' => Nat.eqb (ptr v) (ptr v')) (views s) 0 with
  | Some i =>
      let '(w, st) := shutdown (world s) (objects s !!! ptr v) in
      (with_world w (with_objects (<[ptr v := st]> (objects s)) s), Ok i)
  | None =>
      (s, Err (Errorf "view %s for %v not found" [ArgString (name v); ArgString (folder v)]))
  end.

(** The three statements that delete slot [i] of [s.views]:
    [s.views[i] = s.views[len(s.views)-1]], then the last slot set to
    [nil], then the slice cut by one. *)
Definition deleteSlot (i : nat) (vs : list view) : list view :=
  match last vs with
  | Some l => take (length vs - 1) (<[i := l]> vs)
  | None => vs
  end.

(** [s.removeView(ctx, view)]. *)
Definition removeView (s : session) (v : view) : session * option error :=
  let '(s, r) := dropView s v in
  match r with
  | Err err => (s, Some err)
  | Ok i => (with_views (deleteSlot i (views s)) s, None)
  end.

(** [s.updateView(ctx, view, options)].  The branch taken when
    [createView] fails deletes the slot and then falls through to the
    assignment of [s.views[i]]; [createView] returns no error, so the branch
    is dead. *)
Definition updateView (s : session) (v0 : view) (options : Options)
  : session * res (view * Snapshot) :=
  let '(s, r) := dropView s v0 in
  match r with
  | Err err => (s, Err err)
  | Ok i =>
      let '(s, (v, snapshot, err)) := createView s (name v0) (folder v0) options in
      let s :=
        match err with
        | Some _ => with_views (deleteSlot i (views s)) s
        | None => s
        end in
      (* substitute the new view into the array where the old view was *)
      (with_views (<[i := v]> (views s)) s, Ok (v, snapshot))
  end.

(** The loop of [DidModifyFile] over the views of the file: the world and
    the view objects after it, and the snapshots or the error returned. *)
Fixpoint modifyViews (c : FileModification) (vs : list view) (w : World)
    (h : gmap nat ViewState) (snapshots : list Snapshot)
  : World * gmap nat ViewState * res (list Snapshot) :=
  match vs with
  | [] => (w, h, Ok snapshots)
  | v :: vs =>
      let '(st, ignored) := Ignore (h !!! ptr v) (modURI c) in
      if ignored then
        (w, <[ptr v := st]> h, Err (Errorf "ignored file %v" [ArgString (modURI c)]))
      else
        let '(w, st, r) := getFileLocked w st (modURI c) in
        match r with
        | Err err => (w, <[ptr v := st]> h, Err err)
        | Ok f =>
            let '(w, st, snapshot) :=
              invalidateContent w st (modURI c) (kind f) (modAction c) in
            modifyViews c vs w (<[ptr v := st]> h) (snapshots ++ [snapshot])%list
        end
  end.

(** [s.DidModifyFile(ctx, c)]. *)
Definition DidModifyFile (s : session) (c : FileModification)
  : session * res (list Snapshot) :=
  (* Perform the session-specific updates. *)
  let '(w, o, err) := updateOverlay (world s) (overlays s) c in
  let s := with_world w (with_overlays o s) in
  match err with
  | Some err => (s, Err err)
  | None =>
      let '(w, h, r) := modifyViews c (viewsOf s (modURI c)) (world s) (objects s) [] in
      (with_world w (with_objects h s), r)
  end.

(** What one turn of the loop of [DidModifyFile] does for a view [v], read
    between the view objects [h] before the call and [h'] after it: on the
    state the view had before the call, the view does not ignore the file
    and [getFileLocked] succeeds; [snapshot] is what [invalidateContent]
    returns next; and the state it leaves is the one the view has after the
    call. *)
Definition invalidatedBy (c : FileModification) (h h' : gmap nat ViewState)
    (v : view) (snapshot : Snapshot) : Prop :=
  exists st0 w w1 st1 f w2,
    Ignore (h !!! ptr v) (modURI c) = (st0, false) /\
    getFileLocked w st0 (modURI c) = (w1, st1, Ok f) /\
    invalidateContent w1 st1 (modURI c) (kind f) (modAction c)
    = (w2, h' !!! ptr v, snapshot).

(** [s.IsOpen(uri)]. *)
Definition IsOpen (s : session) (uri : URI) : bool :=
  bool_decide (is_Some (overlays s !! uri)).

(** Modelled from the spec: [readOverlay], which [GetFile] calls and the
    source files at hand do not define.  The overlay is a per-session entry
    keyed by path, created on open and removed on close; the lookup returns
    the entry of [uri], or [nil] ([None]) when there is none. *)
Definition readOverlay (s : session) (uri : URI) : option Overlay :=
  overlays s !! uri.

(** [s.GetFile(uri, kind)]. *)
Definition GetFile (s : session) (uri : URI) (k : FileKind) : session * FileHandle :=
  match readOverlay s uri with
  | Some overlay => (s, overlayHandle overlay)
  | None =>
      (* Fall back to the cache-level file system. *)
      let '(w, fh) := cacheGetFile (world s) uri k in
      (with_world w s, fh)
  end.

(** [s.DidChangeOutOfBand(ctx, uri, action)]. *)
Definition DidChangeOutOfBand (s : session) (uri : URI) (action : FileAction)
  : session * bool :=
  let '(s, r) := viewOf s uri in
  match r with
  | Err _ => (s, false)
  | Ok v =>
      let '(w, st, r) := getFileLocked (world s) (objects s !!! ptr v) uri in
      match r with
      | Err _ => (with_world w (with_objects (<[ptr v := st]> (objects s)) s), false)
      | Ok f =>
          let '(w, st, _) := invalidateContent w st (fileURI f) (kind f) action in
          (with_world w (with_objects (<[ptr v := st]> (objects s)) s), true)
      end
  end.

(** The calls a client makes on a session, and the states a session
    goes through from a fresh one. *)
Inductive call : Type :=
| CallSetOptions (o : Options)
| CallNewView (name : string) (folder : URI) (o : Options)
| CallShutdown
| CallViewOf (uri : URI)
| CallRemoveView (v : view)
| CallUpdateView (v : view) (o : Options)
| CallDidModifyFile (c : FileModification)
| CallGetFile (uri : URI) (k : FileKind)
| CallDidChangeOutOfBand (uri : URI) (action : FileAction).

Definition exec (s : session) (c : call) : session :=
  match c with
  | CallSetOptions o => sessionSetOptions s o
  | CallNewView n f o => (NewView s n f o).1
  | CallShutdown => Shutdown s
  | CallViewOf uri => (viewOf s uri).1
  | CallRemoveView v => (removeView s v).1
  | CallUpdateView v o => (updateView s v o).1
  | CallDidModifyFile c => (DidModifyFile s c).1
  | CallGetFile uri k => (GetFile s uri k).1
  | CallDidChangeOutOfBand uri a => (DidChangeOutOfBand s uri a).1
  end.

(** Between two calls, other sessions advance [viewIndex], and the world
    and the view objects change under the views' own methods. *)
Definition outside (s : session) (index : Z) (h : gmap nat ViewState) (w : World)
  : session :=
  mkSession (sessionOptions s) (views s) (viewMap s) (overlays s) index
    (allocated s) h w (events s).

Inductive reachable : session -> Prop :=
| reachable_empty o index w : reachable (emptySession o index w)
| reachable_exec s c : reachable s -> reachable (exec s c)
| reachable_outside s index h w : reachable s -> reachable (outside s index h w).

(** The invariant: every entry of the memo is what [bestView] returns on
    the current list of views; no two views of the list are the same
    object; and every view of the list has been allocated. *)
Definition sound s : Prop :=
  (forall uri v, viewMap s !! uri = Some v -> bestView s uri = Ok v) /\
  NoDup (ptr <$> views s) /\
  Forall (fun v => ptr v < allocated s) (views s).

End session.

End cache.

(** ** Concrete collaborators

    A small instance of the collaborators, on which the functions above can
    be run.  The world counts the calls to the cache-level file system.  The
    state of a view is its [id] and the number of times its content has
    been invalidated, and that pair is also its snapshot.  An overlay is the
    text of the file; a modification is a URI, whether it opens the file,
    and the new text, and it fails on a file that is not open.  Every file
    is a Go file.  Loading a folder under [/missing] fails. *)

Module scenario.
Import source cache.

#[export] Instance runtime : Runtime := {|
  fmt_s v := match v with VString s => s | _ => "%!s(" +:+ typeName v +:+ ")" end;
  fmt_Sprint v := match v with VString s => s | VBool true => "true" | _ => typeName v end;
  ParseDuration d :=
    if String.eqb d "100ms" then Ok (100 * 1000000)%Z
    else Err (Errorf "time: invalid duration %q" [ArgString d]);
|}.

#[export] Instance collaborators : Collaborators := {|
  World := nat;
  ViewState := string * nat;
  Snapshot := string * nat;
  Metadata := unit;
  Modfiles := unit;
  FileBase := URI * FileKind;
  Overlay := string;
  FileHandle := string + URI;
  FileAction := bool;
  FileModification := URI * bool * string;
  modURI c := c.1.1;
  modAction c := c.1.2;
  kind f := f.2;
  fileURI f := f.1;
  snapshotOf st := st;
  overlayHandle o := inl o;
  zeroViewState := ("", 0);
  newViewState vid _ _ _ _ := (vid, 0);
  cacheOptions := None;
  Filename uri := uri;
  getModfiles w _ _ := (w, (tt, None));
  buildBuiltinPackage w st := (w, st);
  load w st folder :=
    if HasPrefix folder "/missing" then (w, st, Err (Errorf "no such directory" []))
    else (w, st, Ok tt);
  checkWorkspacePackages w st _ := (w, st, None);
  shutdown w st := (w, st);
  Ignore st _ := (st, false);
  getFileLocked w st uri := (w, st, Ok (uri, Go));
  invalidateContent w st _ _ _ := (w, (st.1, S st.2), (st.1, S st.2));
  updateOverlay w ov c :=
    if (c.1.2 : bool) then (w, <[c.1.1 := c.2]> ov, None)
    else match ov !! c.1.1 with
         | Some _ => (w, <[c.1.1 := c.2]> ov, None)
         | None =>
             (w, ov, Some (Errorf "updateOverlay: modifying unopened overlay %v"
                             [ArgString c.1.1]))
         end;
  cacheGetFile w uri _ := (S w, inr uri);
|}.

Definition options0 : Options := DefaultOptions [].

(** A fresh session, and the session after [NewView] on each of the
    folders of a list in turn. *)
Definition fresh : session := emptySession options0 0 0.

Definition register (s : session) (folders : list URI) : session :=
  foldl (fun s f => (NewView s f f options0).1) s folders.

(** The view a session holds at a position of its list. *)
Definition viewAt (s : session) (i : nat) : view :=
  default (mkView 0 "" options0 "" tt "") (views s !! i).

(** [uri] names a file directly under the folder [dir]: [dir], a slash,
    and a name with no slash in it. *)
Definition directlyUnder (dir uri : string) : bool :=
  HasPrefix uri (dir +:+ "/") &&
  bool_decide
    (String.index 0 "/" (String.substring (S (String.length dir))
                    (String.length uri - S (String.length dir)) uri) = None).

End scenario.

(** ** The memoized handle *)

Module memoize.

Section handle.
Context {K V : Type}.

(** The computation a handle wraps: deterministic, it returns a value or
    fails. *)
Variable function : K -> res V.

(** Modelled from the spec: the slot of a Handle, whose package
    ([memoize]) is not among the source files at hand.  The spec gives the
    primitive an explicit state machine, unstarted, in-flight, or done with
    a value or an error, protected by a lock. *)
Inductive slot : Type :=
| unstarted
| inFlight
| done (r : res V).

(** Modelled from the spec: where a caller of [get] stands.  It has called
    and not yet looked at the slot; or it found the slot unstarted and is
    executing the computation; or it found an execution in flight and
    waits for the notification; or it has returned a result. *)
Inductive caller : Type :=
| calling
| computing
| waiting
| returned (r : res V).

(** Modelled from the spec: a Handle with the callers of its [get].
    [runs] counts the executions of the computation started so far. *)
Record handle : Type := mkHandle {
  key : K;
  state : slot;
  runs : nat;
  callers : list caller;
}.

(** Modelled from the spec: a fresh Handle, which the missing package
    would construct, at the moment [n] callers have invoked its [get]. *)
Definition freshHandle (k : K) (n : nat) : handle :=
  mkHandle k unstarted 0 (replicate n calling).

(** Modelled from the spec: the next step of caller [i], one critical
    section under the lock of the handle; [None] when the caller cannot
    move.  A caller that has just called looks at the slot: unstarted, it
    marks the slot in flight and starts the computation; in flight, it
    waits; done, it returns the published result.  A caller that computes
    publishes the result of the computation, notifies the waiters and
    returns it.  A caller that waits is blocked until a result is
    published, and then returns it.  (The cancellation of a computation all
    of whose waiters have given up is left out.) *)
Definition advance (h : handle) (i : nat) : option handle :=
  match callers h !! i with
  | Some calling =>
      match state h with
      | unstarted =>
          Some (mkHandle (key h) inFlight (S (runs h)) (<[i := computing]> (callers h)))
      | inFlight =>
          Some (mkHandle (key h) inFlight (runs h) (<[i := waiting]> (callers h)))
      | done r =>
          Some (mkHandle (key h) (done r) (runs h) (<[i := returned r]> (callers h)))
      end
  | Some computing =>
      Some (mkHandle (key h) (done (function (key h))) (runs h)
              (<[i := returned (function (key h))]> (callers h)))
  | Some waiting =>
      match state h with
      | done r =>
          Some (mkHandle (key h) (done r) (runs h) (<[i := returned r]> (callers h)))
      | _ => None
      end
  | Some (returned _) => None
  | None => None
  end.

(** Modelled from the spec: concurrent callers of the missing [get], as an
    interleaving.  The callers named by [schedule] take a step each, in
    that order; a caller that cannot move leaves the handle as it is. *)
Definition run (schedule : list nat) (h : handle) : handle :=
  foldl (fun h i => default h (advance h i)) h schedule.





End handle.

End memoize.

(** ** Package [lsp]: the handlers that route a request to a view *)

Module lsp.
Import source cache.

(** What the handlers use and the other files of packages [lsp], [source],
    [span] and [cache] define.  A snapshot is reached through its view, so
    [snapshot.GetFile] and the functions of package [source] that take a
    snapshot or a view act on the state of that view; each returns the two
    values of the Go function, the result and the error.  A [nil] slice and
    an empty one are the same list. *)
Class Features `{Collaborators} : Type := {
  TextEdit : Type;
  DocumentSymbol : Type;
  Range : Type;
  Location : Type;
  Position : Type;
  (** [span.NewURI]. *)
  NewURI : string -> URI;
  (** [view.Snapshot().GetFile(ctx, uri)]. *)
  snapshotGetFile : World -> ViewState -> URI -> World * ViewState * res FileHandle;
  (** [fh.Identity().Kind]. *)
  handleKind : FileHandle -> FileKind;
  Format : World -> ViewState -> FileHandle -> World * ViewState * (list TextEdit * option error);
  DocumentSymbols :
    World -> ViewState -> FileHandle -> World * ViewState * (list DocumentSymbol * option error);
  Highlight :
    World -> ViewState -> FileHandle -> Position ->
    World * ViewState * (list Range * option error);
  Implementation :
    World -> ViewState -> FileHandle -> Position ->
    World * ViewState * (list Location * option error);
  ModTidy : World -> ViewState -> World * ViewState * option error;
}.

Section handlers.
Context `{Features}.

(** A call on the snapshot of [view], or on [view] itself: it runs on
    the object of the view and stores the state it leaves. *)
Definition onView {A} (s : session) (view : view)
    (call : World -> ViewState -> World * ViewState * A) : session * A :=
  let '(w, st, a) := call (world s) (objects s !!! ptr view) in
  (with_world w (with_objects (<[ptr view := st]> (objects s)) s), a).

(** The beginning that the handlers share: the URI of the request, the
    view that [ViewOf] returns for it, and the file handle that the
    snapshot of that view returns. *)
Definition openFile (s : session) (uri : URI) : session * res (view * FileHandle) :=
  let '(s, r) := ViewOf s uri in
  match r with
  | Err err => (s, Err err)
  | Ok view =>
      let '(s, r) := onView s view (fun w st => snapshotGetFile w st uri) in
      match r with
      | Err err => (s, Err err)
      | Ok fh => (s, Ok (view, fh))
      end
  end.

(** [s.formatting(ctx, params)]; [paramsURI] is
    [params.TextDocument.URI]. *)
Definition formatting (s : session) (paramsURI : string) : session * res (list TextEdit) :=
  let uri := NewURI paramsURI in
  let '(s, r) := openFile s uri in
  match r with
  | Err err => (s, Err err)
  | Ok (view, fh) =>
      match handleKind fh with
      | Go =>
          let '(s, (edits, err)) := onView s view (fun w st => Format w st fh) in
          match err with
          | Some err => (s, Err err)
          | None => (s, Ok edits)
          end
      | Mod => (s, Ok [])
      | Sum => (s, Ok [])
      end
  end.

(** [s.documentSymbol(ctx, params)]. *)
Definition documentSymbol (s : session) (paramsURI : string)
  : session * res (list DocumentSymbol) :=
  let uri := NewURI paramsURI in
  let '(s, r) := openFile s uri in
  match r with
  | Err err => (s, Err err)
  | Ok (view, fh) =>
      match handleKind fh with
      | Go =>
          let '(s, (symbols, err)) := onView s view (fun w st => DocumentSymbols w st fh) in
          match err with
          | Some err => (report [LogError "DocumentSymbols failed" err uri] s, Ok [])
          | None => (s, Ok symbols)
          end
      | Mod => (s, Ok [])
      | Sum => (s, Ok [])
      end
  end.

(** The kind of a highlight. *)
Inductive DocumentHighlightKind : Type := Text | Read | Write.

(** [toProtocolHighlight(rngs)]. *)
Definition toProtocolHighlight (rngs : list Range) : list (DocumentHighlightKind * Range) :=
  let kind := Text in
  foldl (fun result rng => result ++ [(kind, rng)]) [] rngs.

(** [s.documentHighlight(ctx, params)]. *)
Definition documentHighlight (s : session) (paramsURI : string) (position : Position)
  : session * res (list (DocumentHighlightKind * Range)) :=
  let uri := NewURI paramsURI in
  let '(s, r) := openFile s uri in
  match r with
  | Err err => (s, Err err)
  | Ok (view, fh) =>
      match handleKind fh with
      | Go =>
          let '(s, (rngs, err)) := onView s view (fun w st => Highlight w st fh position) in
          let s :=
            match err with
            | Some err => report [LogError "no highlight" err uri] s
            | None => s
            end in
          (s, Ok (toProtocolHighlight rngs))
      | Mod => (s, Ok [])
      | Sum => (s, Ok (toProtocolHighlight []))
      end
  end.

(** [s.implementation(ctx, params)]. *)
Definition implementation (s : session) (paramsURI : string) (position : Position)
  : session * res (list Location) :=
  let uri := NewURI paramsURI in
  let '(s, r) := openFile s uri in
  match r with
  | Err err => (s, Err err)
  | Ok (view, fh) =>
      match handleKind fh with
      | Go =>
          let '(s, (locations, err)) :=
            onView s view (fun w st => Implementation w st fh position) in
          match err with
          | Some err => (s, Err err)
          | None => (s, Ok locations)
          end
      | _ => (s, Ok [])
      end
  end.

(** [s.executeCommand(ctx, params)], on [params.Command] and
    [params.Arguments]; the value returned is always [nil], so the result
    is the error alone.  [None] is the panic of the type assertion
    [params.Arguments[0].(string)] on an argument that is no string. *)
Definition executeCommand (s : session) (command : string) (arguments : list value)
  : session * option (option error) :=
  if String.eqb command "tidy" then
    match arguments with
    | [argument] =>
        match argument with
        | VString text =>
            (* Confirm that this action is being taken on a go.mod file. *)
            let uri := NewURI text in
            let '(s, r) := openFile s uri in
            match r with
            | Err err => (s, Some (Some err))
            | Ok (view, fh) =>
                match handleKind fh with
                | Mod =>
                    (* Run go.mod tidy on the view. *)
                    let '(s, err) := onView s view ModTidy in
                    (s, Some err)
                | _ => (s, Some (Some (Errorf "%s is not a mod file" [ArgString uri])))
                end
            end
        | _ => (s, None)
        end
    | _ =>
        (s, Some (Some (Errorf "expected one file URI for call to `go mod tidy`, got %v"
                          [ArgValue (VArray arguments)])))
    end
  else (s, Some None).

End handlers.

End lsp.

(** ** Package [hooks]: the analyzers of staticcheck *)

Module hooks.
Import source.

Section analyzers.

(** An [*analysis.Analyzer], of which only the name is read. *)
Context {Analyzer : Type} (Name : Analyzer -> string).

(** The analyzers of packages [simple], [staticcheck] and [stylecheck],
    each in the order its [range] loop visits them. *)
Context (simple staticcheck stylecheck : list Analyzer).

(** One of the three loops: [options.Analyzers[a.Name] = a] for each
    analyzer. *)
Definition addAnalyzers (analyzers : gmap string Analyzer) (suite : list Analyzer)
  : gmap string Analyzer :=
  foldl (fun m a => <[Name a := a]> m) analyzers suite.

(** [updateAnalyzers(options)]: the map [options.Analyzers] after the
    call.  The map is a Go map, which the copies of an [Options] share; it
    is passed beside the options here. *)
Definition updateAnalyzers (options : Options) (analyzers : gmap string Analyzer)
  : gmap string Analyzer :=
  if StaticCheck options then
    addAnalyzers (addAnalyzers (addAnalyzers analyzers simple) staticcheck) stylecheck
  else analyzers.

End analyzers.

End hooks.

(** ** Concrete features

    An instance of the collaborators of the handlers, over the concrete
    sessions of [scenario].  The snapshot of a view knows the files under
    [/a]; a file whose name ends in [.mod] is a module file, the others
    are Go files.  Formatting returns one edit; the symbols of a file
    cannot be computed; a highlight finds the range [(1, 2)]. *)

Module features.
Import source cache scenario lsp.

Definition hasSuffix (s suffix : string) : bool :=
  String.eqb (String.substring (String.length s - String.length suffix)
                (String.length suffix) s) suffix.

#[export] Instance features : Features := {|
  TextEdit := string;
  DocumentSymbol := string;
  Range := nat * nat;
  Location := URI;
  Position := nat;
  NewURI text := text;
  snapshotGetFile w st uri :=
    if HasPrefix uri "/a" then (w, st, Ok (inr uri))
    else (w, st, Err (Errorf "no such file %v" [ArgString uri]));
  handleKind fh :=
    match fh with
    | inr uri => if hasSuffix uri ".mod" then Mod else Go
    | inl _ => Go
    end;
  Format w st _ := (w, st, (["gofmt"], None));
  DocumentSymbols w st _ := (w, st, ([], Some (Errorf "no symbols" [])));
  Highlight w st _ _ := (w, st, ([(1, 2)], None));
  Implementation w st _ _ := (w, st, ([], None));
  ModTidy w st := (S w, st, None);
|}.

End features.

(** * Properties of [SetOptions] *)

Ltac name_cases n :=
  repeat match goal with
         | |- context [String.eqb n ?b] => destruct (String.eqb_spec n b) as [->|?]
         end;
  repeat match goal with
         | |- context [String.eqb ?a ?b] =>
             is_ground a; is_ground b; destruct (String.eqb_spec a b); [done|]
         end.

Ltac value_cases :=
  repeat (match goal with
          | |- context [match ?x with VNil => _ | _ => _ end] => is_var x; destruct x
          | |- context [String.eqb ?a ?b] => destruct (String.eqb a b)
          | |- context [source.ParseDuration ?d] => destruct (source.ParseDuration d)
          | |- context [if ?b then _ else _] => is_var b; destruct b
          end; cbn -[String.eqb]).

Section SetOptions_facts.
Import source.
Context `{Runtime}.







Lemma setAll_cons o rs nv es :
  setAll o rs (nv :: es)
  = setAll (set o nv.1 nv.2).1 (rs ++ [(set o nv.1 nv.2).2]) es.
Proof. unfold setAll. simpl. by destruct (set o nv.1 nv.2). Qed.





Lemma set_fieldwise o n v : (set o n v).1 = fieldwise n v o.
Proof.
  unfold fieldwise, setsBool, setsString.
  unfold set, setHoverKind, setBool, asBool, asString, errorf.
  destruct o as [? ? ? ? ? ? ? ? ? ? ? ? ? ? ? ? [] ? ? ? ?].
  name_cases n; cbn -[String.eqb]; value_cases; reflexivity.
Qed.

Lemma set_result_indep o o' n v : (set o n v).2 = (set o' n v).2.
Proof.
  unfold set, setHoverKind, setBool, asBool, asString, errorf.
  name_cases n; cbn -[String.eqb]; value_cases; reflexivity.
Qed.

Lemma setAll_unfold o rs es :
  setAll o rs es
  = (applyAll o es, rs ++ map (fun nv => (set (DefaultOptions []) nv.1 nv.2).2) es).
Proof.
  revert o rs. induction es as [|nv es IH]; intros o rs.
  - simpl. by rewrite app_nil_r.
  - rewrite setAll_cons, IH. simpl. rewrite <- app_assoc. simpl.
    by rewrite (set_result_indep o (DefaultOptions [])).
Qed.

Lemma applyAll_cons o e es :
  applyAll o (e :: es) = applyAll (fieldwise e.1 e.2 o) es.
Proof. unfold applyAll. simpl. by rewrite set_fieldwise. Qed.



End SetOptions_facts.

(** * Properties of the session *)

Section session_facts.
Import source cache.
Context `{Collaborators}.

Implicit Types (s : session) (v : view) (uri : URI).

(** ** What each function does to the fields of the session *)

Lemma createView_fields s n f o :
  let out := createView s n f o in
  views out.1 = views s /\ viewMap out.1 = viewMap s /\
  overlays out.1 = overlays s /\ sessionOptions out.1 = sessionOptions s /\
  allocated out.1 = S (allocated s) /\
  ptr out.2.1.1 = allocated s /\ name out.2.1.1 = n /\ folder out.2.1.1 = f /\
  out.2.1.2 = snapshotOf (objects out.1 !!! allocated s) /\
  out.2.2 = None.
Proof.
  unfold createView. repeat case_match; simpl;
    rewrite ?lookup_total_insert_eq; repeat split; reflexivity.
Qed.

Lemma dropView_fields s v :
  let out := dropView s v in
  views out.1 = views s /\ viewMap out.1 = ∅ /\
  overlays out.1 = overlays s /\ allocated out.1 = allocated s /\
  out.2 = match findIndex (fun v' => Nat.eqb (ptr v) (ptr v')) (views s) 0 with
          | Some i => Ok i
          | None =>
              Err (Errorf "view %s for %v not found"
                     [ArgString (name v); ArgString (folder v)])
          end.
Proof. unfold dropView. simpl. repeat case_match; simpl; repeat split; reflexivity. Qed.

Lemma bestView_ext s s' uri : views s = views s' -> bestView s uri = bestView s' uri.
Proof. unfold bestView. by intros ->. Qed.

(** ** The loop of [bestView] *)

Lemma bestViewStep_chosen uri vs :
  chosen uri vs (foldl (bestViewStep uri) None vs).
Proof.
  induction vs as [|v vs IH] using rev_ind; [by constructor|].
  rewrite foldl_app. simpl.
  destruct (foldl (bestViewStep uri) None vs) as [l|]; simpl in *.
  - destruct IH as (pre & post & -> & Hl & Hpre & Hpost).
    destruct (Z.gtb_spec (len (folder l)) (len (folder v))) as [Hgt|Hle].
    + exists pre, (post ++ [v]). rewrite <- app_assoc. repeat split; try done.
      intros w [Hw| ->%list_elem_of_singleton]%elem_of_app Hm; [by apply Hpost|lia].
    + destruct (HasPrefix uri (folder v)) eqn:Hv.
      * exists (pre ++ l :: post), []. repeat split; try done.
        -- intros w [Hw|[->|Hw]%elem_of_cons]%elem_of_app Hm.
           ++ specialize (Hpre w Hw Hm). lia.
           ++ done.
           ++ specialize (Hpost w Hw Hm). lia.
        -- intros w Hw. by apply elem_of_nil in Hw.
      * exists pre, (post ++ [v]). rewrite <- app_assoc. repeat split; try done.
        intros w [Hw| ->%list_elem_of_singleton]%elem_of_app Hm;
          [by apply Hpost|congruence].
  - destruct (HasPrefix uri (folder v)) eqn:Hv.
    + exists vs, []. repeat split; try done.
      * intros w Hw Hm. rewrite Forall_forall in IH. specialize (IH w Hw). congruence.
      * intros w Hw. by apply elem_of_nil in Hw.
    + apply Forall_app. split; [done|]. by constructor.
Qed.

(** [bestView] fails on an empty list of views only. *)
Lemma bestView_result s uri :
  bestView s uri =
  match views s with
  | [] => Err (Errorf "no views in the session" [])
  | first :: _ => Ok (default first (foldl (bestViewStep uri) None (views s)))
  end.
Proof. unfold bestView. destruct (views s); [done|]. by case_match. Qed.

(** ** The other functions, field by field *)

Lemma NewView_fields s n f o :
  exists v snapshot,
    (NewView s n f o).2 = Ok (v, snapshot) /\
    views (NewView s n f o).1 = views s ++ [v] /\
    viewMap (NewView s n f o).1 = ∅ /\
    overlays (NewView s n f o).1 = overlays s /\
    allocated (NewView s n f o).1 = S (allocated s) /\
    ptr v = allocated s /\ name v = n /\ folder v = f /\
    snapshot = snapshotOf (objects (NewView s n f o).1 !!! ptr v).
Proof.
  unfold NewView. pose proof (createView_fields s n f o) as Hc. simpl in Hc.
  destruct (createView s n f o) as [s1 [[v snapshot] err]]. simpl in Hc.
  destruct Hc as (Hv & Hm & Ho & _ & Ha & Hp & Hn & Hf & Hs & ->). simpl.
  exists v, snapshot. rewrite Hv, Hp. repeat split; done.
Qed.

Lemma updateView_fields s v0 o :
  match findIndex (fun v' => Nat.eqb (ptr v0) (ptr v')) (views s) 0 with
  | Some i =>
      exists v snapshot,
        (updateView s v0 o).2 = Ok (v, snapshot) /\
        views (updateView s v0 o).1 = <[i := v]> (views s) /\
        allocated (updateView s v0 o).1 = S (allocated s) /\
        ptr v = allocated s /\ name v = name v0 /\ folder v = folder v0 /\
        snapshot = snapshotOf (objects (updateView s v0 o).1 !!! ptr v)
  | None =>
      (updateView s v0 o).2
      = Err (Errorf "view %s for %v not found"
               [ArgString (name v0); ArgString (folder v0)]) /\
      views (updateView s v0 o).1 = views s /\
      allocated (updateView s v0 o).1 = allocated s
  end /\
  viewMap (updateView s v0 o).1 = ∅ /\
  overlays (updateView s v0 o).1 = overlays s.
Proof.
  unfold updateView. pose proof (dropView_fields s v0) as Hd. simpl in Hd.
  destruct (dropView s v0) as [s1 r]. simpl in Hd.
  destruct Hd as (Hv & Hm & Ho & Ha & ->).
  destruct (findIndex _ (views s) 0) as [i|]; simpl; [|by rewrite Hv, Ha].
  pose proof (createView_fields s1 (name v0) (folder v0) o) as Hc. simpl in Hc.
  destruct (createView s1 (name v0) (folder v0) o) as [s2 [[v snapshot] err]].
  simpl in Hc. destruct Hc as (Hv2 & Hm2 & Ho2 & _ & Ha2 & Hp & Hn & Hf & Hs & ->).
  simpl. split; [|by rewrite Hm2, Hm, Ho2, Ho].
  exists v, snapshot. rewrite Hv2, Hv, Ha2, Hp, Ha. repeat split; try done.
  by rewrite Hs, Ha.
Qed.

Lemma removeView_fields s v :
  match findIndex (fun v' => Nat.eqb (ptr v) (ptr v')) (views s) 0 with
  | Some i =>
      (removeView s v).2 = None /\
      views (removeView s v).1 = deleteSlot i (views s)
  | None =>
      (removeView s v).2
      = Some (Errorf "view %s for %v not found"
                [ArgString (name v); ArgString (folder v)]) /\
      views (removeView s v).1 = views s
  end /\
  viewMap (removeView s v).1 = ∅ /\
  overlays (removeView s v).1 = overlays s /\
  allocated (removeView s v).1 = allocated s.
Proof.
  unfold removeView. pose proof (dropView_fields s v) as Hd. simpl in Hd.
  destruct (dropView s v) as [s1 r]. simpl in Hd.
  destruct Hd as (Hv & Hm & Ho & Ha & ->).
  destruct (findIndex _ (views s) 0) as [i|]; simpl; by rewrite Hv.
Qed.

Lemma viewOf_fields s uri :
  views (viewOf s uri).1 = views s /\
  overlays (viewOf s uri).1 = overlays s /\
  allocated (viewOf s uri).1 = allocated s /\
  objects (viewOf s uri).1 = objects s /\
  world (viewOf s uri).1 = world s.
Proof. unfold viewOf. repeat case_match; done. Qed.

Lemma DidModifyFile_fields s c :
  views (DidModifyFile s c).1 = views s /\
  viewMap (DidModifyFile s c).1 = viewMap s /\
  allocated (DidModifyFile s c).1 = allocated s.
Proof. unfold DidModifyFile. repeat case_match; done. Qed.

Lemma DidChangeOutOfBand_fields s uri a :
  views (DidChangeOutOfBand s uri a).1 = views s /\
  viewMap (DidChangeOutOfBand s uri a).1 = viewMap (viewOf s uri).1 /\
  allocated (DidChangeOutOfBand s uri a).1 = allocated s.
Proof.
  unfold DidChangeOutOfBand. destruct (viewOf_fields s uri) as (Hv & _ & Ha & _).
  destruct (viewOf s uri) as [s1 r]. simpl in *. repeat case_match; done.
Qed.

Lemma GetFile_fields s uri k :
  views (GetFile s uri k).1 = views s /\
  viewMap (GetFile s uri k).1 = viewMap s /\
  allocated (GetFile s uri k).1 = allocated s.
Proof. unfold GetFile. repeat case_match; done. Qed.

Lemma Shutdown_fields s :
  views (Shutdown s) = [] /\ viewMap (Shutdown s) = ∅ /\
  allocated (Shutdown s) = allocated s.
Proof. unfold Shutdown. by case_match. Qed.

(** ** The invariant of a session *)

(** Deleting a slot removes one element of the list and keeps the others,
    in some order. *)
Lemma deleteSlot_perm i (vs : list view) :
  vs = [] /\ deleteSlot i vs = [] \/ exists x, vs ≡ₚ x :: deleteSlot i vs.
Proof.
  unfold deleteSlot. destruct (last vs) as [l|] eqn:Hlast.
  - right. apply last_Some in Hlast as [vs' ->].
    rewrite length_app. simpl. replace (length vs' + 1 - 1) with (length vs') by lia.
    destruct (decide (i < length vs')) as [Hi|Hi].
    + rewrite insert_app_l by done.
      rewrite take_app_length' by (by rewrite length_insert).
      destruct (lookup_lt_is_Some_2 vs' i Hi) as [x Hx]. exists x.
      rewrite insert_take_drop by done.
      rewrite <- (take_drop_middle vs' i x Hx) at 1.
      rewrite <- !Permutation_middle. rewrite app_nil_r. apply perm_swap.
    + exists l. rewrite list_insert_id'.
      * rewrite take_app_length. by rewrite <- Permutation_cons_append.
      * rewrite length_app. simpl. intros Hlt.
        assert (i = length vs') as -> by lia. apply list_lookup_middle. done.
  - left. apply last_None in Hlast. by subst.
Qed.

Lemma elem_of_insert_inv {A} (l : list A) i x y :
  y ∈ <[i := x]> l -> y = x \/ y ∈ l.
Proof.
  revert i. induction l as [|a l IH]; intros [|i]; simpl; try (by right).
  - intros [->|Hy]%elem_of_cons; [by left|right; by constructor].
  - intros [->|Hy]%elem_of_cons; [right; by constructor|].
    destruct (IH _ Hy) as [->|Hin]; [by left|right; by constructor].
Qed.

Lemma NoDup_insert_fresh {A} (l : list A) i x :
  NoDup l -> x ∉ l -> NoDup (<[i := x]> l).
Proof.
  revert i. induction l as [|a l IH]; intros i Hnd Hx; [done|].
  apply NoDup_cons in Hnd as [Ha Hnd]. apply not_elem_of_cons in Hx as [Hxa Hx].
  destruct i as [|i]; simpl; apply NoDup_cons; split; try done.
  - intros [->|Hin]%elem_of_insert_inv; done.
  - by apply IH.
Qed.

Lemma sound_same s s' :
  views s' = views s -> viewMap s' = viewMap s -> allocated s' = allocated s ->
  sound s -> sound s'.
Proof.
  intros Hv Hm Ha (Hmemo & Hnd & Hlt). unfold sound. rewrite Hv, Hm, Ha.
  split; [|done]. intros uri v Hl. rewrite (bestView_ext s' s) by done. by apply Hmemo.
Qed.

Lemma sound_fresh_memo s :
  viewMap s = ∅ -> NoDup (ptr <$> views s) ->
  Forall (fun v => ptr v < allocated s) (views s) -> sound s.
Proof.
  intros Hm Hnd Hlt. split; [|done]. intros uri v. by rewrite Hm, lookup_empty.
Qed.

Lemma sound_viewOf s uri : sound s -> sound (viewOf s uri).1.
Proof.
  intros (Hmemo & Hnd & Hlt).
  destruct (viewOf_fields s uri) as (Hv & _ & Ha & _).
  unfold sound. rewrite Hv, Ha. split; [|done].
  intros uri' v'. rewrite (bestView_ext _ s) by done.
  unfold viewOf. destruct (viewMap s !! uri) eqn:Hhit; simpl; [by apply Hmemo|].
  destruct (bestView s uri) as [v|e] eqn:Hbest; simpl; [|by apply Hmemo].
  destruct (decide (uri = uri')) as [<-|Hne].
  - rewrite lookup_insert_eq. by intros [= <-].
  - rewrite lookup_insert_ne by done. by apply Hmemo.
Qed.

Lemma sound_exec s c : sound s -> sound (exec s c).
Proof.
  intros Hs. pose proof Hs as (Hmemo & Hnd & Hlt). destruct c; cbn [exec].
  - by apply (sound_same s).
  - destruct (NewView_fields s name0 folder0 o)
      as (v & snapshot & _ & Hv & Hm & _ & Ha & Hp & _).
    apply sound_fresh_memo; [done|rewrite Hv|rewrite Hv, Ha].
    + rewrite fmap_app. simpl. apply NoDup_app. split; [done|]. split.
      * intros p Hin [->|[]%elem_of_nil]%elem_of_cons.
        apply list_elem_of_fmap in Hin as (w & Hw & Hin).
        rewrite Forall_forall in Hlt. specialize (Hlt w Hin). lia.
      * apply NoDup_singleton.
    + apply Forall_app. split.
      * eapply Forall_impl; [done|]. simpl. lia.
      * constructor; [lia|done].
  - destruct (Shutdown_fields s) as (Hv & Hm & Ha).
    apply sound_fresh_memo; rewrite ?Hv; [done|constructor|constructor].
  - by apply sound_viewOf.
  - destruct (removeView_fields s v) as (Hcase & Hm & _ & Ha).
    apply sound_fresh_memo; [done| |rewrite Ha].
    + destruct (findIndex _ (views s) 0) as [i|]; destruct Hcase as [_ ->]; [|done].
      destruct (deleteSlot_perm i (views s)) as [[_ ->]|[x Hperm]]; [constructor|].
      rewrite Hperm in Hnd. simpl in Hnd. by apply NoDup_cons in Hnd as [_ ?].
    + destruct (findIndex _ (views s) 0) as [i|]; destruct Hcase as [_ ->]; [|done].
      destruct (deleteSlot_perm i (views s)) as [[_ ->]|[x Hperm]]; [constructor|].
      rewrite Hperm in Hlt. by apply Forall_cons in Hlt as [_ ?].
  - destruct (updateView_fields s v o) as (Hcase & Hm & _).
    destruct (findIndex _ (views s) 0) as [i|].
    + destruct Hcase as (w & snapshot & _ & Hv & Ha & Hp & _).
      apply sound_fresh_memo; [done|rewrite Hv|rewrite Hv, Ha].
      * rewrite list_fmap_insert. apply NoDup_insert_fresh; [done|].
        intros (w' & Hw' & Hin)%list_elem_of_fmap.
        rewrite Forall_forall in Hlt. specialize (Hlt w' Hin). lia.
      * apply Forall_insert; [|lia]. eapply Forall_impl; [done|]. simpl. lia.
    + destruct Hcase as (_ & Hv & Ha).
      apply sound_fresh_memo; [done|by rewrite Hv|by rewrite Hv, Ha].
  - destruct (DidModifyFile_fields s c) as (Hv & Hm & Ha). by apply (sound_same s).
  - destruct (GetFile_fields s uri k) as (Hv & Hm & Ha). by apply (sound_same s).
  - destruct (DidChangeOutOfBand_fields s uri action) as (Hv & Hm & Ha).
    destruct (viewOf_fields s uri) as (Hv' & _ & Ha' & _).
    apply (sound_same (viewOf s uri).1); [congruence..|]. by apply sound_viewOf.
Qed.

Lemma reachable_sound s : reachable s -> sound s.
Proof.
  induction 1 as [o index w|s c _ IH|s index h w _ IH].
  - apply sound_fresh_memo; [done|constructor|constructor].
  - by apply sound_exec.
  - by apply (sound_same s).
Qed.

(** ** Routing a URI to a view *)

Lemma HasPrefix_app uri a b :
  HasPrefix uri (a +:+ b) = true -> HasPrefix uri a = true.
Proof.
  unfold HasPrefix. revert uri. induction a as [|c a IH]; intros uri.
  - by destruct uri.
  - destruct uri as [|d uri]; simpl; [done|].
    destruct (Ascii.ascii_dec c d); [apply IH|done].
Qed.

(** With no folder that is a prefix of [uri], the loop keeps [nil]. *)
Lemma bestViewStep_no_match uri vs :
  Forall (fun v => HasPrefix uri (folder v) = false) vs ->
  foldl (bestViewStep uri) None vs = None.
Proof.
  intros Hnone. pose proof (bestViewStep_chosen uri vs) as Hc.
  destruct (foldl (bestViewStep uri) None vs) as [l|]; [|done].
  destruct Hc as (pre & post & -> & Hl & _).
  apply Forall_app in Hnone as [_ [Hl' _]%Forall_cons]. congruence.
Qed.

(** With one, the loop ends on a view of the list. *)
Lemma bestViewStep_match uri vs :
  (exists w, w ∈ vs /\ HasPrefix uri (folder w) = true) ->
  exists l, foldl (bestViewStep uri) None vs = Some l /\
            chosen uri vs (Some l).
Proof.
  intros (w & Hw & Hm). pose proof (bestViewStep_chosen uri vs) as Hc.
  destruct (foldl (bestViewStep uri) None vs) as [l|]; [by exists l|].
  simpl in Hc. rewrite Forall_forall in Hc. specialize (Hc w Hw). congruence.
Qed.

Lemma bestView_match s uri :
  (exists w, w ∈ views s /\ HasPrefix uri (folder w) = true) ->
  exists l, bestView s uri = Ok l /\ chosen uri (views s) (Some l).
Proof.
  intros Hex. destruct (bestViewStep_match uri (views s) Hex) as (l & Hl & Hc).
  exists l. split; [|done]. rewrite bestView_result, Hl.
  destruct Hex as (w & Hw & _). destruct (views s); [by apply elem_of_nil in Hw|done].
Qed.

(** Two ways of cutting one list around an element. *)
Lemma cut_twice {A} (pre pre' post post' : list A) x y :
  pre ++ x :: post = pre' ++ y :: post' ->
  (x = y /\ pre = pre' /\ post = post') \/ y ∈ post \/ x ∈ post'.
Proof.
  revert pre'. induction pre as [|a pre IH]; intros [|a' pre']; simpl; intros Heq.
  - injection Heq as Hx Hp. subst. by left.
  - injection Heq as Hx Hp. subst. right; left. apply elem_of_app. right. by constructor.
  - injection Heq as Hx Hp. subst. right; right. apply elem_of_app. right. by constructor.
  - injection Heq as Ha Heq. subst.
    destruct (IH _ Heq) as [(Hx & Hp & Hq)|[?|?]]; subst; auto.
Qed.

(** C4, as amended.  In a session reached from a fresh one, for a URI that
    no folder of a view is a prefix of: [ViewOf] returns an error when the
    session holds no view at all, and the first view of its list
    otherwise. *)
Theorem ViewOf_without_match s uri :
  reachable s ->
  Forall (fun v => HasPrefix uri (folder v) = false) (views s) ->
  (ViewOf s uri).2 =
  match views s with
  | [] => Err (Errorf "no views in the session" [])
  | first :: _ => Ok first
  end.
Proof.
  intros Hreach Hnone. destruct (reachable_sound s Hreach) as (Hmemo & _).
  assert (bestView s uri =
          match views s with
          | [] => Err (Errorf "no views in the session" [])
          | first :: _ => Ok first
          end) as Hbest.
  { rewrite bestView_result, bestViewStep_no_match by done. by destruct (views s). }
  unfold ViewOf, viewOf. destruct (viewMap s !! uri) as [v|] eqn:Hhit; simpl.
  - rewrite <- Hbest. symmetry. by apply Hmemo.
  - rewrite <- Hbest. by destruct (bestView s uri).
Qed.

(** C5, as amended.  When two views of the list have folders of the same
    length that are both prefixes of the URI, no folder that is a prefix of
    the URI is longer, and every such folder after the second of the two is
    shorter, [bestView] returns the second: among the longest matches the
    last of the list wins. *)
Theorem bestView_tie_goes_to_the_last s uri pre mid post v1 v2 :
  views s = pre ++ v1 :: mid ++ v2 :: post ->
  HasPrefix uri (folder v1) = true ->
  HasPrefix uri (folder v2) = true ->
  len (folder v1) = len (folder v2) ->
  (forall w, w ∈ views s -> HasPrefix uri (folder w) = true ->
             (len (folder w) <= len (folder v2))%Z) ->
  (forall w, w ∈ post -> HasPrefix uri (folder w) = true ->
             (len (folder w) < len (folder v2))%Z) ->
  bestView s uri = Ok v2.
Proof.
  intros Hviews Hm1 Hm2 Hlen Hmax Hpost.
  assert (v2 ∈ views s) as Hin2.
  { rewrite Hviews. rewrite !elem_of_app, !elem_of_cons, !elem_of_app, !elem_of_cons.
    tauto. }
  destruct (bestView_match s uri) as (l & Hbest & pre' & post' & Hcut & Hl & Hpre' & Hpost').
  { by exists v2. }
  rewrite Hbest. f_equal.
  assert (l ∈ views s) as Hinl.
  { rewrite Hcut. apply elem_of_app. right. by constructor. }
  pose proof Hin2 as Hwhere. rewrite Hcut in Hwhere.
  rewrite Hviews in Hcut.
  change (pre ++ v1 :: mid ++ v2 :: post) with (pre ++ (v1 :: mid) ++ v2 :: post) in Hcut.
  rewrite app_assoc in Hcut.
  destruct (cut_twice _ _ _ _ _ _ Hcut) as [(? & _)|[Hlpost|H2post]]; [done|..].
  - (* [l] also stands after [v2]: it would be shorter than [v2] *)
    specialize (Hpost l Hlpost Hl).
    apply elem_of_app in Hwhere as [H2|[->|H2]%elem_of_cons].
    + specialize (Hpre' v2 H2 Hm2). lia.
    + lia.
    + specialize (Hpost' v2 H2 Hm2). lia.
  - (* [v2] stands after [l]: it would be shorter than [l] *)
    specialize (Hpost' v2 H2post Hm2). specialize (Hmax l Hinl Hl). lia.
Qed.

(** C3, as amended.  For a URI that the memo does not hold and that some
    folder of a view is a prefix of: [viewOf] returns a view of the list
    whose folder is a prefix of the URI and is at least as long as every
    other folder that is one, and stores it in the memo under the URI.  In
    particular, with one view on [/a] and one on [/a/b], in either order, a
    URI resolves to the view on [/a/b] when [/a/b] is a prefix of it as a
    string of bytes, and to the view on [/a] otherwise. *)
Theorem viewOf_picks_longest_prefix s uri :
  viewMap s !! uri = None ->
  (exists w, w ∈ views s /\ HasPrefix uri (folder w) = true) ->
  (exists v,
      viewOf s uri = (with_viewMap (<[uri := v]> (viewMap s)) s, Ok v) /\
      v ∈ views s /\
      HasPrefix uri (folder v) = true /\
      forall w, w ∈ views s -> HasPrefix uri (folder w) = true ->
                (len (folder w) <= len (folder v))%Z) /\
  (forall va vb,
      folder va = "/a" -> folder vb = "/a/b" ->
      views s = [va; vb] \/ views s = [vb; va] ->
      (ViewOf s uri).2 = Ok (if HasPrefix uri "/a/b" then vb else va)).
Proof.
  intros Hmiss Hex.
  destruct (bestView_match s uri Hex) as (v & Hbest & pre & post & Hcut & Hv & Hpre & Hpost).
  assert (viewOf s uri = (with_viewMap (<[uri := v]> (viewMap s)) s, Ok v)) as Hcall.
  { unfold viewOf. by rewrite Hmiss, Hbest. }
  assert (v ∈ views s) as Hin.
  { rewrite Hcut. apply elem_of_app. right. by constructor. }
  assert (forall w, w ∈ views s -> HasPrefix uri (folder w) = true ->
                    (len (folder w) <= len (folder v))%Z) as Hmax.
  { intros w Hw Hm. rewrite Hcut in Hw.
    apply elem_of_app in Hw as [Hw|[->|Hw]%elem_of_cons].
    - by apply Hpre.
    - lia.
    - specialize (Hpost w Hw Hm). lia. }
  split; [by exists v|].
  intros va vb Ha Hb Hviews. unfold ViewOf. rewrite Hcall. simpl. f_equal.
  assert (v = va \/ v = vb) as Hv2.
  { destruct Hviews as [Hvs|Hvs]; rewrite Hvs in Hin;
      apply elem_of_cons in Hin as [->|[->|[]%elem_of_nil]%elem_of_cons]; auto. }
  assert (vb ∈ views s) as Hinb.
  { destruct Hviews as [Hvs|Hvs]; rewrite Hvs, !elem_of_cons; auto. }
  destruct (HasPrefix uri "/a/b") eqn:Hab.
  - destruct Hv2 as [Heq|Heq]; [subst v|done].
    specialize (Hmax vb Hinb). rewrite Ha, Hb, Hab in Hmax.
    specialize (Hmax eq_refl). vm_compute in Hmax. by destruct Hmax.
  - destruct Hv2 as [Heq|Heq]; [done|]. subst v. congruence.
Qed.

(** C6.  In every state a session goes through from a fresh one, each
    entry of the memo is what [bestView] returns on the current list of
    views; and [NewView], [dropView], [removeView] and [updateView] each
    leave the memo empty. *)
Theorem memo_agrees_with_bestView s :
  reachable s ->
  (forall uri v, viewMap s !! uri = Some v -> bestView s uri = Ok v) /\
  (forall n f o, viewMap (NewView s n f o).1 = ∅) /\
  (forall v, viewMap (dropView s v).1 = ∅) /\
  (forall v, viewMap (removeView s v).1 = ∅) /\
  (forall v o, viewMap (updateView s v o).1 = ∅).
Proof.
  intros Hreach. split; [by apply (reachable_sound s Hreach)|]. repeat split.
  - intros n f o. by destruct (NewView_fields s n f o) as (? & ? & _ & _ & ? & _).
  - intros v. by destruct (dropView_fields s v) as (_ & ? & _).
  - intros v. by destruct (removeView_fields s v) as (_ & ? & _).
  - intros v o. by destruct (updateView_fields s v o) as (_ & ? & _).
Qed.

(** C7.  When the overlay table has an entry for the URI, [GetFile]
    returns that entry and leaves the session and the world as they are,
    whatever the world is: the cache-level file system is neither called
    nor read.  Only when there is no entry does it return what the cache
    returns. *)
Theorem GetFile_overlay_first s uri k :
  match overlays s !! uri with
  | Some overlay =>
      forall w, GetFile (with_world w s) uri k = (with_world w s, overlayHandle overlay)
  | None =>
      GetFile s uri k
      = (with_world (cacheGetFile (world s) uri k).1 s, (cacheGetFile (world s) uri k).2)
  end.
Proof.
  destruct (overlays s !! uri) as [overlay|] eqn:Hov.
  - intros w. unfold GetFile, readOverlay. simpl. by rewrite Hov.
  - unfold GetFile, readOverlay. rewrite Hov. by destruct (cacheGetFile (world s) uri k).
Qed.

(** ** Creating a view *)

(** C9.  [createView] returns a [nil] error always; a failure of the initial
    load or of the check of the workspace packages is reported to the log
    and nowhere else.  So [NewView] succeeds, with a view that it has put
    at the end of the list and the snapshot of that view; and [updateView]
    succeeds whenever the view to replace is in the list, with a new view
    in the place of the old one and its snapshot. *)
Theorem createView_suppresses_load_failures s n f o :
  (createView s n f o).2.2 = None /\
  match suppressed s n f o with
  | Some (msg, err) => LogError msg err f ∈ events (createView s n f o).1
  | None => True
  end /\
  (exists v snapshot,
      (NewView s n f o).2 = Ok (v, snapshot) /\
      views (NewView s n f o).1 = views s ++ [v] /\
      name v = n /\ folder v = f /\
      snapshot = snapshotOf (objects (NewView s n f o).1 !!! ptr v)) /\
  (forall v0,
      match findIndex (fun v' => Nat.eqb (ptr v0) (ptr v')) (views s) 0 with
      | Some i =>
          exists v snapshot,
            (updateView s v0 o).2 = Ok (v, snapshot) /\
            views (updateView s v0 o).1 = <[i := v]> (views s) /\
            name v = name v0 /\ folder v = folder v0 /\
            snapshot = snapshotOf (objects (updateView s v0 o).1 !!! ptr v)
      | None => is_Ok (updateView s v0 o).2 = false
      end).
Proof.
  split; [by destruct (createView_fields s n f o) as (_&_&_&_&_&_&_&_&_&?)|].
  split; [|split].
  - unfold suppressed, createView. repeat case_match; simplify_eq; simpl; try done;
      apply elem_of_app; right; rewrite !elem_of_cons; auto.
  - destruct (NewView_fields s n f o) as (v & snapshot & ? & ? & _ & _ & _ & _ & ? & ? & ?).
    by exists v, snapshot.
  - intros v0. destruct (updateView_fields s v0 o) as (Hcase & _).
    destruct (findIndex _ (views s) 0) as [i|].
    + destruct Hcase as (v & snapshot & ? & ? & _ & _ & ? & ? & ?). by exists v, snapshot.
    + destruct Hcase as (-> & _). done.
Qed.

(** ** A modification of a file *)

(** C10.  When the update of the overlay fails, [DidModifyFile] returns its
    error; the session after the call differs from the one before in the
    overlay table and the world the update left, and in nothing else: the
    list of views, the memo and every view object, hence every current
    snapshot, are the same. *)
Theorem DidModifyFile_overlay_failure s c w ov err :
  updateOverlay (world s) (overlays s) c = (w, ov, Some err) ->
  DidModifyFile s c = (with_world w (with_overlays ov s), Err err) /\
  views (DidModifyFile s c).1 = views s /\
  viewMap (DidModifyFile s c).1 = viewMap s /\
  objects (DidModifyFile s c).1 = objects s /\
  forall v, snapshotOf (objects (DidModifyFile s c).1 !!! ptr v)
            = snapshotOf (objects s !!! ptr v).
Proof.
  intros Hupd. unfold DidModifyFile. rewrite Hupd. done.
Qed.

Lemma NoDup_ptr_filter (P : view -> bool) vs :
  NoDup (ptr <$> vs) -> NoDup (ptr <$> List.filter P vs).
Proof.
  induction vs as [|v vs IH]; simpl; [done|].
  intros [Hv Hnd]%NoDup_cons. destruct (P v); simpl; [|by apply IH].
  apply NoDup_cons. split; [|by apply IH].
  intros (w & Hw & Hin)%list_elem_of_fmap. apply Hv.
  apply list_elem_of_fmap. exists w. split; [done|].
  apply list_elem_of_In. apply list_elem_of_In in Hin.
  by apply List.filter_In in Hin as [? _].
Qed.

Lemma Forall2_impl_elem {A B} (P Q : A -> B -> Prop) l k :
  (forall x y, x ∈ l -> P x y -> Q x y) -> Forall2 P l k -> Forall2 Q l k.
Proof.
  intros HPQ Hall. induction Hall as [|x y l k Hxy Hall IH]; constructor.
  - apply HPQ; [by constructor|done].
  - apply IH. intros x' y' Hin. apply HPQ. by constructor.
Qed.

(** The loop, when it runs to its end: it adds one snapshot per view, in
    the order of the list, and touches no other view object. *)
Lemma modifyViews_Ok c vs w h acc w' h' snapshots :
  NoDup (ptr <$> vs) ->
  modifyViews c vs w h acc = (w', h', Ok snapshots) ->
  exists new,
    snapshots = acc ++ new /\
    Forall2 (invalidatedBy c h h') vs new /\
    forall p, p ∉ ptr <$> vs -> h' !!! p = h !!! p.
Proof.
  revert w h acc. induction vs as [|v vs IH]; intros w h acc Hnd; simpl.
  - intros [= <- <- <-]. exists []. by rewrite app_nil_r.
  - apply NoDup_cons in Hnd as [Hv Hnd].
    destruct (Ignore (h !!! ptr v) (modURI c)) as [st0 [|]] eqn:Hign; [done|].
    destruct (getFileLocked w st0 (modURI c)) as [[w1 st1] [f|e]] eqn:Hget; [|done].
    destruct (invalidateContent w1 st1 (modURI c) (kind f) (modAction c))
      as [[w2 st2] snapshot] eqn:Hinv.
    intros Hloop. destruct (IH _ _ _ Hnd Hloop) as (new & -> & Hall & Hframe).
    exists (snapshot :: new). rewrite <- app_assoc. split; [done|]. split.
    + constructor.
      * exists st0, w, w1, st1, f, w2.
        rewrite (Hframe _ Hv), lookup_total_insert_eq. done.
      * eapply Forall2_impl_elem; [|exact Hall].
        intros u snap Hu (st0' & wa & wb & stb & fb & wc & Hi & Hg & Hs).
        assert (ptr u <> ptr v) as Hne.
        { intros Heq. apply Hv. rewrite <- Heq. apply list_elem_of_fmap. eauto. }
        rewrite lookup_total_insert_ne in Hi by done.
        by exists st0', wa, wb, stb, fb, wc.
    + intros p [Hpv Hp]%not_elem_of_cons.
      rewrite (Hframe _ Hp). by rewrite lookup_total_insert_ne.
Qed.

(** C1, as amended.  When [DidModifyFile] succeeds on a session reached
    from a fresh one, it returns one snapshot for each view of the list
    whose folder is a prefix of the URI of the modification, in the order
    of the list, and each is the snapshot that [invalidateContent] returned
    for that view and that file. *)
Theorem DidModifyFile_one_snapshot_per_view s c s' snapshots :
  reachable s ->
  DidModifyFile s c = (s', Ok snapshots) ->
  Forall2 (invalidatedBy c (objects s) (objects s'))
    (List.filter (fun v => HasPrefix (modURI c) (folder v)) (views s)) snapshots.
Proof.
  intros Hreach. destruct (reachable_sound s Hreach) as (_ & Hnd & _).
  unfold DidModifyFile.
  destruct (updateOverlay (world s) (overlays s) c) as [[w ov] [err|]]; [done|].
  unfold viewsOf. simpl.
  destruct (modifyViews c _ w (objects s) []) as [[w' h'] r] eqn:Hloop. simpl.
  intros [= <- ->].
  apply modifyViews_Ok in Hloop as (new & -> & Hall & _); [done|].
  by apply NoDup_ptr_filter.
Qed.

End session_facts.

(** * The properties on concrete sessions *)

Import source cache scenario.

(** Closes a goal between closed terms by evaluation. *)
Ltac by_evaluation :=
  lazymatch goal with
  | |- ?lhs = ?rhs => exact (@eq_refl _ rhs <: lhs = rhs)
  end.

Lemma register_reachable s folders : reachable s -> reachable (register s folders).
Proof.
  revert s. induction folders as [|f folders IH]; intros s Hs; [done|].
  apply IH. apply (reachable_exec s (CallNewView f f options0) Hs).
Qed.

(** [NewView] registers at the end of the list: after a series of calls
    the views stand in the order of the calls. *)
Lemma register_in_order s folders :
  map folder (views (register s folders)) = map folder (views s) ++ folders.
Proof.
  revert s. induction folders as [|f folders IH]; intros s.
  - simpl. by rewrite app_nil_r.
  - change (register s (f :: folders)) with (register (NewView s f f options0).1 folders).
    rewrite IH.
    destruct (NewView_fields s f f options0) as (v & _ & _ & -> & _ & _ & _ & _ & _ & Hf & _).
    rewrite map_app. simpl. rewrite Hf. by rewrite <- app_assoc.
Qed.

Lemma fresh_reachable folders : reachable (register fresh folders).
Proof. apply register_reachable, reachable_empty. Qed.

(** One view on [/a] and one on [/a/b]: [/a/b/x.go] goes to the second. *)
Lemma viewOf_picks_longest_prefix_run :
  (ViewOf (register fresh ["/a"; "/a/b"]) "/a/b/x.go").2
  = Ok (viewAt (register fresh ["/a"; "/a/b"]) 1).
Proof.
  apply (proj2 (viewOf_picks_longest_prefix (register fresh ["/a"; "/a/b"]) "/a/b/x.go"
                  eq_refl
                  (ex_intro _ (viewAt (register fresh ["/a"; "/a/b"]) 0)
                     (conj (list_elem_of_here _ _) eq_refl)))
               (viewAt (register fresh ["/a"; "/a/b"]) 0)
               (viewAt (register fresh ["/a"; "/a/b"]) 1)
               eq_refl eq_refl (or_introl eq_refl)).
Defined.

(** A file directly under [/a] whose name starts with [b] goes to the
    view on [/a/b]; and a URI under no folder at all goes to a view whose
    folder is no prefix of it. *)
Lemma viewOf_string_prefix_run :
  directlyUnder "/a" "/a/bc.go" = true /\
  (ViewOf (register fresh ["/a"; "/a/b"]) "/a/bc.go").2
  = Ok (viewAt (register fresh ["/a"; "/a/b"]) 1) /\
  folder (viewAt (register fresh ["/a"; "/a/b"]) 1) = "/a/b" /\
  (ViewOf (register fresh ["/a"]) "/b/x.go").2 = Ok (viewAt (register fresh ["/a"]) 0) /\
  HasPrefix "/b/x.go" (folder (viewAt (register fresh ["/a"]) 0)) = false.
Proof. repeat split; by_evaluation. Qed.

(** A session with one view, on [/a], and a URI outside it: no error. *)
Lemma ViewOf_without_match_run :
  (ViewOf (register fresh ["/a"]) "/b/x.go").2 = Ok (viewAt (register fresh ["/a"]) 0).
Proof.
  apply (ViewOf_without_match (register fresh ["/a"]) "/b/x.go" (fresh_reachable ["/a"])).
  repeat constructor.
Defined.

Lemma ViewOf_falls_back_to_first_view :
  Forall (fun v => HasPrefix "/b/x.go" (folder v) = false) (views (register fresh ["/a"])) /\
  is_Ok (ViewOf (register fresh ["/a"]) "/b/x.go").2 = true.
Proof. split; [repeat constructor|by_evaluation]. Qed.

(** Two views on the same folder: the second one registered wins. *)
Lemma bestView_tie_goes_to_the_last_run :
  bestView (register fresh ["/a"; "/a"]) "/a/x.go"
  = Ok (viewAt (register fresh ["/a"; "/a"]) 1).
Proof.
  apply (bestView_tie_goes_to_the_last (register fresh ["/a"; "/a"]) "/a/x.go"
           [] [] [] (viewAt (register fresh ["/a"; "/a"]) 0)
           (viewAt (register fresh ["/a"; "/a"]) 1)); try reflexivity.
  - intros w Hw _. apply list_elem_of_In in Hw.
    destruct Hw as [<-|[<-|[]]]; vm_compute; discriminate.
  - intros w Hw. by apply elem_of_nil in Hw.
Defined.

Lemma bestView_tie_second_registered :
  map id (views (register fresh ["/a"; "/a"])) = ["1"; "2"] /\
  map folder (views (register fresh ["/a"; "/a"])) = ["/a"; "/a"] /\
  bestView (register fresh ["/a"; "/a"]) "/a/x.go"
  = Ok (viewAt (register fresh ["/a"; "/a"]) 1) /\
  bestView (register fresh ["/a"; "/a"]) "/a/x.go"
  <> Ok (viewAt (register fresh ["/a"; "/a"]) 0).
Proof.
  repeat split; try by_evaluation.
  intros Heq.
  apply (f_equal (fun r => match r with Ok v => ptr v | Err _ => 0 end)) in Heq.
  vm_compute in Heq. discriminate Heq.
Qed.

(** After one [NewView] and one [viewOf], the memo holds an entry, and it
    is what [bestView] returns. *)
Lemma memo_agrees_with_bestView_run :
  viewMap (viewOf (register fresh ["/a"]) "/a/x.go").1 !! "/a/x.go"
  = Some (viewAt (register fresh ["/a"]) 0) /\
  bestView (viewOf (register fresh ["/a"]) "/a/x.go").1 "/a/x.go"
  = Ok (viewAt (register fresh ["/a"]) 0).
Proof.
  split; [by_evaluation|].
  apply (proj1 (memo_agrees_with_bestView (viewOf (register fresh ["/a"]) "/a/x.go").1
                  (reachable_exec _ (CallViewOf "/a/x.go") (fresh_reachable ["/a"])))).
  by_evaluation.
Defined.

(** A change to a file that is not open fails, and the views stay as they
    are. *)
Lemma DidModifyFile_overlay_failure_run :
  (DidModifyFile (register fresh ["/a"]) ("/a/x.go", false, "package x")).2
  = Err (Errorf "updateOverlay: modifying unopened overlay %v" [ArgString "/a/x.go"]) /\
  objects (DidModifyFile (register fresh ["/a"]) ("/a/x.go", false, "package x")).1
  = objects (register fresh ["/a"]).
Proof.
  pose proof (DidModifyFile_overlay_failure
                (register fresh ["/a"]) ("/a/x.go", false, "package x")
                0 ∅ (Errorf "updateOverlay: modifying unopened overlay %v"
                       [ArgString "/a/x.go"]) eq_refl) as (Hcall & _ & _ & Hobj & _).
  split; [by rewrite Hcall|exact Hobj].
Defined.

(** Opening a file under two views gives one snapshot for each, in the
    order of the list. *)
Lemma DidModifyFile_one_snapshot_per_view_run :
  Forall2
    (invalidatedBy ("/a/b/x.go", true, "package x")
       (objects (register fresh ["/a"; "/a/b"]))
       (objects (DidModifyFile (register fresh ["/a"; "/a/b"])
                   ("/a/b/x.go", true, "package x")).1))
    (views (register fresh ["/a"; "/a/b"]))
    [("1", 1); ("2", 1)].
Proof.
  apply (DidModifyFile_one_snapshot_per_view (register fresh ["/a"; "/a/b"])
           ("/a/b/x.go", true, "package x") _ _ (fresh_reachable ["/a"; "/a/b"])).
  by_evaluation.
Defined.

(** Three views registered on [/a], [/a/b] and [/a/b/c], then the first
    one removed: the snapshot of the view registered third comes before the
    snapshot of the view registered second. *)
Lemma DidModifyFile_order_after_removeView :
  let s3 := register fresh ["/a"; "/a/b"; "/a/b/c"] in
  let s4 := (removeView s3 (viewAt s3 0)).1 in
  map id (views s3) = ["1"; "2"; "3"] /\
  (removeView s3 (viewAt s3 0)).2 = None /\
  map id (views s4) = ["3"; "2"] /\
  (DidModifyFile s4 ("/a/b/c/x.go", true, "package x")).2 = Ok [("3", 1); ("2", 1)].
Proof. repeat split; by_evaluation. Qed.

(** A folder that cannot be loaded: the failure is logged, and [NewView]
    returns the view and its snapshot all the same. *)
Example NewView_on_missing_folder :
  suppressed fresh "w" "/missing/w" options0
  = Some ("failed to load snapshot", Errorf "no such directory" []) /\
  (NewView fresh "w" "/missing/w" options0).2
  = Ok (mkView 0 "1" options0 "w" tt "/missing/w", ("1", 0)) /\
  events (NewView fresh "w" "/missing/w" options0).1
  = [LogError "failed to load snapshot" (Errorf "no such directory" []) "/missing/w"].
Proof. repeat split; by_evaluation. Qed.

(** An overlay shadows the cache: no call to the file system. *)
Example GetFile_on_open_file :
  let s := (DidModifyFile (register fresh ["/a"]) ("/a/x.go", true, "package x")).1 in
  GetFile s "/a/x.go" Go = (s, inl "package x") /\
  (GetFile s "/a/y.go" Go).2 = inr "/a/y.go" /\
  world (GetFile s "/a/y.go" Go).1 = 1.
Proof. repeat split; by_evaluation. Qed.

(** A batch with one invalid value: its result carries the value, and the
    other option is applied. *)
Example SetOptions_on_a_mixed_batch :
  let out := SetOptions options0
               (VObject [("staticcheck", VString "yes"); ("verboseOutput", VBool true)]) in
  map (fun r => (Name r, Value r, bool_decide (is_Some (Error r)))) out.2
  = [("staticcheck", VString "yes", true); ("verboseOutput", VBool true, false)] /\
  VerboseOutput out.1 = true /\ StaticCheck out.1 = false.
Proof. repeat split; by_evaluation. Qed.


(** * Properties of the memoized handle *)

Section handle_facts.
Import memoize.
Context {K V : Type} (function : K -> res V).

Implicit Types (h : handle (K:=K) (V:=V)) (c : caller (V:=V)).










End handle_facts.

(** Three callers of a handle whose computation returns [7]: the second
    one starts the computation, the others wait and cannot move until it
    has published; in the end the computation has run once and all three
    have returned [7]. *)
Example three_callers_one_execution :
  let function := fun _ : nat => @Ok nat 7 in
  let h1 := memoize.run function [1; 0; 2] (memoize.freshHandle 0 3) in
  let h2 := memoize.run function [1; 0; 2] h1 in
  memoize.callers h1 = [memoize.waiting; memoize.computing; memoize.waiting] /\
  memoize.advance function h1 0 = None /\
  memoize.runs h2 = 1 /\
  memoize.callers h2 = replicate 3 (memoize.returned (Ok 7)).
Proof. repeat split. Qed.

(** * Further properties of [SetOptions] *)

Section SetOptions_more.
Context `{Runtime}.

(** ** [set], field by field *)

Ltac owner_cases :=
  unfold setsBool, setsString;
  repeat match goal with
         | |- context [String.eqb ?n ?b] =>
             is_var n; destruct (String.eqb_spec n b)
         end;
  try congruence.

(** Two different options write different fields. *)
Lemma fieldwise_comm n1 v1 n2 v2 o :
  n1 <> n2 ->
  fieldwise n1 v1 (fieldwise n2 v2 o) = fieldwise n2 v2 (fieldwise n1 v1 o).
Proof.
  intros Hne. unfold fieldwise. cbn -[String.eqb setsBool setsString].
  f_equal;
    try match goal with
        | |- mkCompletionOptions _ _ _ _ _ _ _ _ _ = _ => f_equal
        end;
    owner_cases.
Qed.

Lemma set_comm o n1 v1 n2 v2 :
  n1 <> n2 ->
  (set (set o n1 v1).1 n2 v2).1 = (set (set o n2 v2).1 n1 v1).1.
Proof. intros Hne. rewrite !set_fieldwise. by apply fieldwise_comm. Qed.

Lemma applyAll_perm o es es' :
  NoDup es.*1 -> es ≡ₚ es' -> applyAll o es = applyAll o es'.
Proof.
  intros Hnd Hperm. revert o Hnd.
  induction Hperm as [|x l l' Hperm IH|x y l|l l' l'' Hp1 IH1 Hp2 IH2]; intros o Hnd.
  - done.
  - simpl. apply IH. simpl in Hnd. by apply NoDup_cons in Hnd as [_ ?].
  - simpl. f_equal. apply set_comm. simpl in Hnd.
    apply NoDup_cons in Hnd as [Hy _]. intros Heq. apply Hy. rewrite Heq. by constructor.
  - rewrite IH1 by done. apply IH2. by rewrite <- Hp1.
Qed.

Lemma appendEnv_app env menv :
  appendEnv env menv = env ++ map (fun kv => kv.1 +:+ "=" +:+ fmt_s kv.2) menv.
Proof.
  unfold appendEnv. revert env. induction menv as [|kv menv IH]; intros env; simpl.
  - by rewrite app_nil_r.
  - rewrite IH. by rewrite <- app_assoc.
Qed.

Lemma fieldwise_besides_Env n v o1 o2 :
  with_Env [] o1 = with_Env [] o2 ->
  with_Env [] (fieldwise n v o1) = with_Env [] (fieldwise n v o2).
Proof.
  destruct o1, o2. unfold with_Env. cbn -[String.eqb]. intros Heq.
  injection Heq as -> -> -> -> -> -> -> -> -> -> -> -> -> -> -> -> -> -> -> ->.
  reflexivity.
Qed.

Lemma fieldwise_env_besides_Env menv o :
  with_Env [] (fieldwise "env" (VObject menv) o) = with_Env [] o.
Proof. by destruct o as [? ? ? ? ? ? ? ? ? ? ? ? ? ? ? ? [] ? ? ? ?]. Qed.

Lemma fieldwise_Env n v :
  exists added,
    (forall o, Env (fieldwise n v o) = Env o ++ added) /\
    (n = "env" -> forall menv, v = VObject menv ->
       added = map (fun kv => kv.1 +:+ "=" +:+ fmt_s kv.2) menv).
Proof.
  destruct (String.eqb_spec n "env") as [->|Hne].
  - destruct v as [| | | | |menv];
      try (exists []; split; [intros o; cbn; by rewrite app_nil_r|done]).
    exists (map (fun kv => kv.1 +:+ "=" +:+ fmt_s kv.2) menv). split.
    + intros o. cbn. apply appendEnv_app.
    + by intros _ menv' [= ->].
  - exists []. split; [|done]. intros o. unfold fieldwise. cbn -[String.eqb].
    destruct (String.eqb_spec n "env"); [done|]. by rewrite app_nil_r.
Qed.

Lemma revisited_Env e e' :
  revisited e e' ->
  exists added added',
    (forall o, Env (fieldwise e.1 e.2 o) = Env o ++ added) /\
    (forall o, Env (fieldwise e'.1 e'.2 o) = Env o ++ added') /\
    added ≡ₚ added'.
Proof.
  intros [[n v]|menv menv' Hperm].
  - destruct (fieldwise_Env n v) as (added & Hadd & _). by exists added, added.
  - exists (map (fun kv => kv.1 +:+ "=" +:+ fmt_s kv.2) menv),
           (map (fun kv => kv.1 +:+ "=" +:+ fmt_s kv.2) menv').
    split; [|split].
    + intros o. cbn. apply appendEnv_app.
    + intros o. cbn. apply appendEnv_app.
    + by apply Permutation_map.
Qed.

Lemma revisited_besides_Env e e' o1 o2 :
  revisited e e' ->
  with_Env [] o1 = with_Env [] o2 ->
  with_Env [] (fieldwise e.1 e.2 o1) = with_Env [] (fieldwise e'.1 e'.2 o2).
Proof.
  intros [[n v]|menv menv' Hperm] Heq.
  - by apply fieldwise_besides_Env.
  - cbn [fst snd]. by rewrite !fieldwise_env_besides_Env.
Qed.

Lemma applyAll_revisited es es' :
  Forall2 revisited es es' ->
  forall o1 o2 base added added',
    with_Env [] o1 = with_Env [] o2 ->
    Env o1 = base ++ added -> Env o2 = base ++ added' -> added ≡ₚ added' ->
    with_Env [] (applyAll o1 es) = with_Env [] (applyAll o2 es') /\
    exists all all',
      Env (applyAll o1 es) = base ++ all /\ Env (applyAll o2 es') = base ++ all' /\
      all ≡ₚ all'.
Proof.
  induction 1 as [|e e' es es' Hrev _ IH]; intros o1 o2 base added added' Heq H1 H2 Hperm.
  - split; [done|]. by exists added, added'.
  - rewrite !applyAll_cons.
    destruct (revisited_Env e e' Hrev) as (a & a' & Ha & Ha' & Hp).
    apply (IH _ _ base (added ++ a) (added' ++ a')).
    + by apply revisited_besides_Env.
    + by rewrite Ha, H1, <- app_assoc.
    + by rewrite Ha', H2, <- app_assoc.
    + by f_equiv.
Qed.

Lemma set_result_env o menv :
  (set o "env" (VObject menv)).2 = mkOptionResult "env" (VObject menv) None OptionHandled "".
Proof. reflexivity. Qed.

Lemma revisited_result e e' :
  revisited e e' ->
  sameResult (set (DefaultOptions []) e.1 e.2).2 (set (DefaultOptions []) e'.1 e'.2).2.
Proof.
  intros [[n v]|menv menv' Hperm].
  - repeat split. apply revisited_same.
  - cbn [fst snd]. rewrite !set_result_env. repeat split. by apply revisited_env.
Qed.

(** X14.  What [SetOptions] does depends on the order of the visits only
    through the order of the environment: for a map, whose keys are
    distinct, two visits of the batch, each in an order of its own for the
    batch and for the map of [env], leave the same options but for [Env];
    [Env] is the one before followed by the same added entries, in an order
    that follows the visit of the map of [env]; and the results are the
    same up to their order.  When both visits find the map of [env] in the
    same order, the options are equal. *)
Theorem SetOptions_order_irrelevant o entries entries' :
  NoDup entries.*1 -> sameBatch entries entries' ->
  let out := SetOptions o (VObject entries) in
  let out' := SetOptions o (VObject entries') in
  with_Env [] out'.1 = with_Env [] out.1 /\
  (exists added added',
     Env out.1 = Env o ++ added /\ Env out'.1 = Env o ++ added' /\ added ≡ₚ added') /\
  (exists middle, out.2 ≡ₚ middle /\ Forall2 sameResult middle out'.2) /\
  (entries ≡ₚ entries' -> out'.1 = out.1).
Proof.
  intros Hnd (middle & Hperm & Hrev) out out'. unfold out, out'. clear out out'.
  simpl. rewrite !setAll_unfold. simpl.
  rewrite (applyAll_perm o entries middle Hnd Hperm).
  destruct (applyAll_revisited middle entries' Hrev o o (Env o) [] [])
    as (Heq & all & all' & Hall & Hall' & Hp); [done|by rewrite app_nil_r..|done|].
  split; [done|]. split; [by exists all, all'|]. split.
  - exists (map (fun nv => (set (DefaultOptions []) nv.1 nv.2).2) middle).
    split; [by apply Permutation_map|].
    apply Forall2_fmap, (Forall2_impl _ _ _ _ Hrev). apply revisited_result.
  - intros Hsame. rewrite <- (applyAll_perm o entries middle Hnd Hperm).
    symmetry. by apply applyAll_perm.
Qed.

(** X15.  A batch can be sent in two parts: [SetOptions] on the entries of
    one map followed by those of another does what two calls do, one after
    the other, and returns their results in a row. *)
Theorem SetOptions_in_two_parts o entries1 entries2 :
  SetOptions o (VObject (entries1 ++ entries2))
  = ((SetOptions (SetOptions o (VObject entries1)).1 (VObject entries2)).1,
     (SetOptions o (VObject entries1)).2
     ++ (SetOptions (SetOptions o (VObject entries1)).1 (VObject entries2)).2).
Proof.
  simpl. rewrite !setAll_unfold. simpl. unfold applyAll.
  by rewrite foldl_app, map_app.
Qed.

(** X16.  Setting an option a second time to the same value changes
    nothing more and gives the same result, for every option but [env];
    [env] appends the entries of its map to the environment each time it is
    set, after those that were there, each time in the order in which that
    visit finds the map: the second visit need not follow the order of the
    first. *)
Theorem set_twice o n v :
  (n <> "env" -> set (set o n v).1 n v = set o n v) /\
  (forall menv menv',
      Env (set (set o "env" (VObject menv)).1 "env" (VObject menv')).1
      = Env o ++ map (fun kv => kv.1 +:+ "=" +:+ fmt_s kv.2) menv
              ++ map (fun kv => kv.1 +:+ "=" +:+ fmt_s kv.2) menv').
Proof.
  split.
  - intros Hne. apply injective_projections; [|apply set_result_indep].
    rewrite !set_fieldwise. unfold fieldwise, setsBool, setsString.
    cbn -[String.eqb].
    destruct (String.eqb_spec n "env") as [?|_]; [done|].
    f_equal;
      try match goal with
          | |- mkCompletionOptions _ _ _ _ _ _ _ _ _ = _ => f_equal
          end;
      repeat match goal with
             | |- context [String.eqb n ?b] => destruct (String.eqb n b)
             end;
      try reflexivity; value_cases; reflexivity.
  - intros menv menv'. rewrite !set_fieldwise. cbn.
    by rewrite !appendEnv_app, <- app_assoc.
Qed.

Lemma applyAll_snoc o es nv :
  applyAll o (es ++ [nv]) = fieldwise nv.1 nv.2 (applyAll o es).
Proof. unfold applyAll. rewrite foldl_app. simpl. apply set_fieldwise. Qed.

Lemma SetOptions_fst o opts :
  (SetOptions o opts).1 = match opts with VObject es => applyAll o es | _ => o end.
Proof. destruct opts; try done. simpl. by rewrite setAll_unfold. Qed.

(** X17.  No batch of options switches incremental synchronisation back
    on: after [SetOptions] the kind of synchronisation is the one before,
    or it is [Full]; and it is [Full] whenever it was. *)
Theorem SetOptions_sync_kind_one_way o opts :
  (TextDocumentSyncKind_ (SetOptions o opts).1 = TextDocumentSyncKind_ o \/
   TextDocumentSyncKind_ (SetOptions o opts).1 = Full) /\
  (TextDocumentSyncKind_ o = Full -> TextDocumentSyncKind_ (SetOptions o opts).1 = Full).
Proof.
  assert (TextDocumentSyncKind_ (SetOptions o opts).1 = TextDocumentSyncKind_ o \/
          TextDocumentSyncKind_ (SetOptions o opts).1 = Full) as Hor.
  { rewrite SetOptions_fst. destruct opts as [| | | | |es]; auto.
    induction es as [|nv es IH] using rev_ind; [by left|].
    rewrite applyAll_snoc. unfold fieldwise at 1. cbn -[String.eqb].
    destruct (String.eqb nv.1 "noIncrementalSync"); [|done].
    destruct nv.2 as [|[|]| | | |]; auto. }
  split; [done|]. intros Hfull. destruct Hor as [->|]; done.
Qed.

(** X18.  [SetOptions] never writes the fields that describe the client:
    the format of inserted text, whether configuration and its dynamic
    registrations are supported, the preferred content format, line
    folding, the supported code actions and commands; nor the completion
    settings [Literal] and [FullDocumentation]. *)
Theorem SetOptions_leaves_client_fields o opts :
  let o' := (SetOptions o opts).1 in
  InsertTextFormat_ o' = InsertTextFormat_ o /\
  ConfigurationSupported o' = ConfigurationSupported o /\
  DynamicConfigurationSupported o' = DynamicConfigurationSupported o /\
  DynamicWatchedFilesSupported o' = DynamicWatchedFilesSupported o /\
  PreferredContentFormat o' = PreferredContentFormat o /\
  LineFoldingOnly o' = LineFoldingOnly o /\
  SupportedCodeActions o' = SupportedCodeActions o /\
  SupportedCommands o' = SupportedCommands o /\
  Literal (Completion o') = Literal (Completion o) /\
  FullDocumentationC (Completion o') = FullDocumentationC (Completion o).
Proof.
  cbv zeta. rewrite SetOptions_fst. destruct opts as [| | | | |es]; try done.
  induction es as [|nv es IH] using rev_ind; [done|].
  rewrite applyAll_snoc. exact IH.
Qed.

Lemma set_State_unhandled o n v :
  State (set o n v).2 <> OptionHandled ->
  (set o n v).1 = o /\ Error (set o n v).2 = None.
Proof.
  unfold set, setHoverKind, setBool, asBool, asString, errorf.
  name_cases n; cbn -[String.eqb]; value_cases; done.
Qed.

Lemma set_Replacement o n v :
  Replacement (set o n v).2 <> "" ->
  State (set o n v).2 = OptionDeprecated /\
  Replacement (set o n v).2
  ∈ ["deepCompletion"; "fuzzyMatching"; "completionDocumentation"; "completeUnimported"].
Proof.
  unfold set, setHoverKind, setBool, asBool, asString, errorf.
  name_cases n; cbn -[String.eqb]; value_cases; try done;
    (intros _; split; [done|]); set_solver.
Qed.

Lemma set_replacement_handled o n v :
  n ∈ ["deepCompletion"; "fuzzyMatching"; "completionDocumentation"; "completeUnimported"] ->
  State (set o n v).2 = OptionHandled.
Proof.
  intros Hn. repeat (apply elem_of_cons in Hn as [->|Hn]);
    [..|by apply elem_of_nil in Hn]; by destruct v.
Qed.

(** X19.  An option that [set] does not handle, deprecated or unknown, is
    reported through the state of the result alone: the options stay as
    they are and the result carries no error.  A replacement is named for
    deprecated options only, and the option it names is one that [set]
    handles. *)
Theorem set_of_unhandled_option o n v :
  let r := (set o n v).2 in
  (State r <> OptionHandled -> (set o n v).1 = o /\ Error r = None) /\
  (Replacement r <> "" ->
   State r = OptionDeprecated /\
   forall o' v', State (set o' (Replacement r) v').2 = OptionHandled).
Proof.
  cbv zeta. split; [apply set_State_unhandled|].
  intros Hr. destruct (set_Replacement o n v Hr) as [Hs Hin]. split; [done|].
  intros o' v'. by apply set_replacement_handled.
Qed.

End SetOptions_more.

(** * Properties of [ForClientCapabilities] *)

Section capabilities_facts.
Context `{Runtime}.

Lemma fieldwise_ForClientCapabilities n v o caps :
  fieldwise n v (ForClientCapabilities o caps)
  = ForClientCapabilities (fieldwise n v o) caps.
Proof.
  unfold ForClientCapabilities.
  destruct (SnippetSupport caps), (HoverContentFormat caps); reflexivity.
Qed.

(** X20.  The capabilities of the client and the settings of the user
    can be applied in either order: [SetOptions] after
    [ForClientCapabilities] leaves the options that
    [ForClientCapabilities] after [SetOptions] leaves, with the same
    results. *)
Theorem SetOptions_commutes_with_ForClientCapabilities o caps opts :
  (SetOptions (ForClientCapabilities o caps) opts).1
  = ForClientCapabilities (SetOptions o opts).1 caps /\
  (SetOptions (ForClientCapabilities o caps) opts).2 = (SetOptions o opts).2.
Proof.
  split.
  - rewrite !SetOptions_fst. destruct opts as [| | | | |es]; try done.
    induction es as [|nv es IH] using rev_ind; [done|].
    by rewrite !applyAll_snoc, IH, fieldwise_ForClientCapabilities.
  - destruct opts as [| | | | |es]; try done. simpl. by rewrite !setAll_unfold.
Qed.

(** X21.  [ForClientCapabilities] never switches snippets off and never
    forgets a content format: once the format of inserted text is
    [SnippetTextFormat] it stays so under the capabilities of any client,
    and a client that lists no content format for hover leaves the
    preferred one as it is.  The other four fields are those of the last
    client, so applying the same capabilities twice changes nothing
    more. *)
Theorem ForClientCapabilities_keeps_snippets o caps :
  (InsertTextFormat_ o = SnippetTextFormat ->
   InsertTextFormat_ (ForClientCapabilities o caps) = SnippetTextFormat) /\
  (HoverContentFormat caps = [] ->
   PreferredContentFormat (ForClientCapabilities o caps) = PreferredContentFormat o) /\
  ForClientCapabilities (ForClientCapabilities o caps) caps = ForClientCapabilities o caps.
Proof.
  unfold ForClientCapabilities.
  destruct (SnippetSupport caps), (HoverContentFormat caps); repeat split; done.
Qed.

End capabilities_facts.

(** * Further properties of the session *)

Section session_more.
Context `{Collaborators}.

Implicit Types (s : session) (v : view) (uri : URI).

(** ** Routing *)

Lemma bestView_in s uri v : bestView s uri = Ok v -> v ∈ views s.
Proof.
  rewrite bestView_result. destruct (views s) as [|first rest] eqn:Hv; [done|].
  pose proof (bestViewStep_chosen uri (first :: rest)) as Hc.
  destruct (foldl (bestViewStep uri) None (first :: rest)) as [l|];
    cbn [default]; intros [= <-].
  - destruct Hc as (pre & post & -> & _). apply elem_of_app. right. by constructor.
  - by constructor.
Qed.

(** In a session that keeps its invariant the memo is transparent. *)
Lemma viewOf_is_bestView s uri : sound s -> (viewOf s uri).2 = bestView s uri.
Proof.
  intros (Hmemo & _). unfold viewOf.
  destruct (viewMap s !! uri) as [v|] eqn:Hhit; simpl.
  - symmetry. by apply Hmemo.
  - by destruct (bestView s uri).
Qed.

Lemma viewOf_ext s s' uri :
  views s' = views s -> viewMap s' = viewMap s -> (viewOf s' uri).2 = (viewOf s uri).2.
Proof.
  intros Hv Hm. unfold viewOf. rewrite Hm, (bestView_ext s' s) by done.
  by repeat case_match.
Qed.

Lemma elem_of_viewsOf s uri v :
  v ∈ viewsOf s uri <-> v ∈ views s /\ HasPrefix uri (folder v) = true.
Proof.
  unfold viewsOf. rewrite !list_elem_of_In. apply List.filter_In.
Qed.

Lemma viewOf_without_views s uri :
  reachable s ->
  match views s with
  | [] => viewOf s uri = (s, Err (Errorf "no views in the session" []))
  | _ :: _ => is_Ok (viewOf s uri).2 = true
  end.
Proof.
  intros Hreach. pose proof (reachable_sound s Hreach) as Hs.
  pose proof (viewOf_is_bestView s uri Hs) as Hres.
  rewrite bestView_result in Hres.
  destruct (views s) as [|first rest] eqn:Hv; [|by rewrite Hres].
  destruct Hs as (Hmemo & _). unfold viewOf in *.
  destruct (viewMap s !! uri) as [v|] eqn:Hhit.
  - specialize (Hmemo _ _ Hhit). rewrite bestView_result, Hv in Hmemo. done.
  - rewrite bestView_result, Hv. done.
Qed.

(** X1.  In every state a session goes through, [ViewOf] fails exactly
    when the session holds no view: then it returns the error of
    [bestView] and leaves the session as it is; with at least one view it
    succeeds for every URI. *)
Theorem ViewOf_fails_only_without_views s uri :
  reachable s ->
  match views s with
  | [] => ViewOf s uri = (s, Err (Errorf "no views in the session" []))
  | _ :: _ => is_Ok (ViewOf s uri).2 = true
  end.
Proof. apply viewOf_without_views. Qed.

(** X2.  Resolving a URI a second time returns what the first call
    returned and changes nothing more. *)
Theorem viewOf_twice s uri :
  viewOf (viewOf s uri).1 uri = ((viewOf s uri).1, (viewOf s uri).2).
Proof.
  destruct (viewOf s uri) as [s1 r] eqn:Hcall. simpl. revert Hcall. unfold viewOf at 1.
  destruct (viewMap s !! uri) as [v|] eqn:Hhit.
  - intros [= <- <-]. unfold viewOf. by rewrite Hhit.
  - destruct (bestView s uri) as [v|e] eqn:Hbest; intros [= <- <-].
    + unfold viewOf. simpl. by rewrite lookup_insert_eq.
    + unfold viewOf. by rewrite Hhit, Hbest.
Qed.

(** X3.  In every state a session goes through, the view that [ViewOf]
    returns is one of the current list, never a view that has been removed
    or replaced; and when the folder of some view is a prefix of the URI,
    it is one of the views that [viewsOf] returns for the URI. *)
Theorem ViewOf_returns_a_current_view s uri v :
  reachable s ->
  (ViewOf s uri).2 = Ok v ->
  v ∈ views s /\ (viewsOf s uri <> [] -> v ∈ viewsOf s uri).
Proof.
  intros Hreach Hres. pose proof (reachable_sound s Hreach) as Hs.
  unfold ViewOf in Hres. rewrite (viewOf_is_bestView s uri Hs) in Hres.
  split; [by eapply bestView_in|].
  intros Hsome. destruct (viewsOf s uri) as [|w ws] eqn:Hws; [done|].
  assert (w ∈ viewsOf s uri) as Hw by (rewrite Hws; by constructor).
  rewrite <- Hws. apply elem_of_viewsOf in Hw as [Hw Hm].
  destruct (bestView_match s uri) as (l & Hbest & pre & post & Hcut & Hl & _).
  { by exists w. }
  rewrite Hbest in Hres. injection Hres as <-. apply elem_of_viewsOf. split; [|done].
  rewrite Hcut. apply elem_of_app. right. by constructor.
Qed.

(** ** Removing and replacing a view *)

Lemma findIndex_Some {A} (P : A -> bool) (l : list A) k i :
  findIndex P l k = Some i ->
  exists j x, i = k + j /\ l !! j = Some x /\ P x = true.
Proof.
  revert k. induction l as [|a l IH]; intros k; simpl; [done|].
  destruct (P a) eqn:Ha.
  - intros [= <-]. exists 0, a. split; [lia|done].
  - intros Hf. destruct (IH _ Hf) as (j & x & -> & Hx & HP).
    exists (S j), x. split; [lia|done].
Qed.

Lemma findIndex_None {A} (P : A -> bool) (l : list A) k :
  findIndex P l k = None <-> Forall (fun x => P x = false) l.
Proof.
  revert k. induction l as [|a l IH]; intros k; simpl; [by split; [constructor|]|].
  destruct (P a) eqn:Ha; split.
  - done.
  - intros [Ha' _]%Forall_cons. congruence.
  - intros Hf. constructor; [done|]. by eapply IH.
  - intros [_ Hl]%Forall_cons. by apply IH.
Qed.

(** Among distinct objects the loop of [dropView] finds a view of the list
    at its own position. *)
Lemma findIndex_position vs v i :
  NoDup (ptr <$> vs) -> vs !! i = Some v ->
  findIndex (fun v' => Nat.eqb (ptr v) (ptr v')) vs 0 = Some i.
Proof.
  intros Hnd Hi.
  destruct (findIndex (fun v' => Nat.eqb (ptr v) (ptr v')) vs 0) as [i'|] eqn:Hf.
  - apply findIndex_Some in Hf as (j & x & -> & Hx & Hp). simpl.
    apply Nat.eqb_eq in Hp. f_equal.
    eapply (NoDup_lookup (ptr <$> vs)); [done| |].
    + rewrite list_lookup_fmap, Hx. simpl. by rewrite <- Hp.
    + by rewrite list_lookup_fmap, Hi.
  - apply findIndex_None in Hf. rewrite Forall_lookup in Hf.
    specialize (Hf _ _ Hi). simpl in Hf. by rewrite Nat.eqb_refl in Hf.
Qed.

(** Deleting the slot of an element removes that element and keeps the
    others. *)
Lemma deleteSlot_at i (vs : list view) x :
  vs !! i = Some x -> vs ≡ₚ x :: deleteSlot i vs.
Proof.
  intros Hi. unfold deleteSlot. destruct (last vs) as [l|] eqn:Hlast.
  - apply last_Some in Hlast as [vs' ->].
    rewrite length_app. simpl. replace (length vs' + 1 - 1) with (length vs') by lia.
    destruct (decide (i < length vs')) as [Hlt|Hge].
    + rewrite lookup_app_l in Hi by done.
      rewrite insert_app_l by done.
      rewrite take_app_length' by (by rewrite length_insert).
      rewrite insert_take_drop by done.
      rewrite <- (take_drop_middle vs' i x Hi) at 1.
      rewrite <- !Permutation_middle. rewrite app_nil_r. apply perm_swap.
    + assert (i = length vs') as ->.
      { apply lookup_lt_Some in Hi. rewrite length_app in Hi. simpl in Hi. lia. }
      rewrite list_lookup_middle in Hi by done. injection Hi as ->.
      rewrite list_insert_id by (by apply list_lookup_middle).
      rewrite take_app_length. by rewrite <- Permutation_cons_append.
  - apply last_None in Hlast. by subst.
Qed.

Lemma NoDup_views vs : NoDup (ptr <$> vs) -> NoDup vs.
Proof. apply NoDup_fmap_1. Qed.

(** X4.  In every state a session goes through, no view object stands
    twice in the list, and every view of the list was allocated by
    [createView]: its address is below the count of allocations, so the
    next view gets an address of its own. *)
Theorem views_are_distinct_objects s :
  reachable s ->
  NoDup (ptr <$> views s) /\ Forall (fun v => ptr v < allocated s) (views s).
Proof. intros Hreach. by destruct (reachable_sound s Hreach) as (_ & ? & ?). Qed.

(** X5.  In every state a session goes through, removing a view of the
    list succeeds, and the list afterwards holds every other view and no
    longer that one. *)
Theorem removeView_removes_that_view s v :
  reachable s -> v ∈ views s ->
  (removeView s v).2 = None /\
  views s ≡ₚ v :: views (removeView s v).1 /\
  v ∉ views (removeView s v).1.
Proof.
  intros Hreach Hin. destruct (reachable_sound s Hreach) as (_ & Hnd & _).
  apply list_elem_of_lookup in Hin as [i Hi].
  destruct (removeView_fields s v) as (Hcase & _).
  rewrite (findIndex_position _ _ _ Hnd Hi) in Hcase. destruct Hcase as [Herr Hviews].
  pose proof (deleteSlot_at i (views s) v Hi) as Hperm. rewrite <- Hviews in Hperm.
  repeat split; try done.
  apply NoDup_views in Hnd. rewrite Hperm in Hnd. by apply NoDup_cons in Hnd as [? _].
Qed.

(** X6.  Removing a view that is not in the list fails; the session is
    left as it was except for the memo, which is emptied all the same, and
    no view is shut down. *)
Theorem removeView_of_unknown_view s v :
  Forall (fun w => ptr w <> ptr v) (views s) ->
  removeView s v
  = (with_viewMap ∅ s,
     Some (Errorf "view %s for %v not found" [ArgString (name v); ArgString (folder v)])).
Proof.
  intros Hnot. unfold removeView, dropView.
  assert (findIndex (fun v' => Nat.eqb (ptr v) (ptr v')) (views (with_viewMap ∅ s)) 0
          = None) as ->; [|done].
  apply findIndex_None. simpl. eapply Forall_impl; [exact Hnot|].
  intros w Hw. simpl. apply Nat.eqb_neq. congruence.
Qed.

(** X7.  In every state a session goes through, replacing a view of the
    list by [updateView] succeeds and keeps the layout of the list: the
    folders and the names stand as before, position by position.  The view
    returned is a new object at the place of the old one, which is no
    longer in the list. *)
Theorem updateView_keeps_the_layout s v0 o :
  reachable s -> v0 ∈ views s ->
  exists v snapshot,
    (updateView s v0 o).2 = Ok (v, snapshot) /\
    folder <$> views (updateView s v0 o).1 = folder <$> views s /\
    name <$> views (updateView s v0 o).1 = name <$> views s /\
    v ∈ views (updateView s v0 o).1 /\
    (v0 ∉ views (updateView s v0 o).1) /\
    ptr v ∉ (ptr <$> views s).
Proof.
  intros Hreach Hin. destruct (reachable_sound s Hreach) as (_ & Hnd & Hlt).
  apply list_elem_of_lookup in Hin as [i Hi].
  destruct (updateView_fields s v0 o) as (Hcase & _).
  rewrite (findIndex_position _ _ _ Hnd Hi) in Hcase.
  destruct Hcase as (v & snapshot & Hres & Hviews & _ & Hp & Hn & Hf & _).
  assert (i < length (views s)) as Hilt by (by eapply lookup_lt_Some).
  assert (ptr v ∉ (ptr <$> views s)) as Hfresh.
  { intros (w & Hw & Hwin)%list_elem_of_fmap.
    rewrite Forall_forall in Hlt. specialize (Hlt w Hwin). lia. }
  exists v, snapshot. rewrite Hviews, !list_fmap_insert, Hn, Hf.
  repeat split; try done.
  - apply list_insert_id. by rewrite list_lookup_fmap, Hi.
  - apply list_insert_id. by rewrite list_lookup_fmap, Hi.
  - apply list_elem_of_lookup. exists i. by apply list_lookup_insert_eq.
  - intros [j Hj]%list_elem_of_lookup. destruct (decide (j = i)) as [->|Hne].
    + rewrite list_lookup_insert_eq in Hj by done. injection Hj as ->.
      apply Hfresh. apply list_elem_of_fmap. exists v0. split; [done|].
      by eapply list_elem_of_lookup_2.
    + rewrite list_lookup_insert_ne in Hj by done.
      apply NoDup_views in Hnd. by pose proof (NoDup_lookup _ _ _ _ Hnd Hi Hj).
Qed.

(** ** Looking a view up by name *)

Lemma find_snoc {A} (P : A -> bool) (l : list A) x :
  List.find P (l ++ [x])
  = match List.find P l with
    | Some y => Some y
    | None => if P x then Some x else None
    end.
Proof.
  induction l as [|a l IH]; simpl; [done|]. by destruct (P a).
Qed.

(** X8.  After [NewView] has registered a view under a name, [View] finds
    a view for that name; but a view registered earlier under the same
    name keeps the name, and the new one cannot be found by it.  The
    other names resolve as before. *)
Theorem View_after_NewView s n f o :
  exists v snapshot,
    (NewView s n f o).2 = Ok (v, snapshot) /\
    forall n',
      View (NewView s n f o).1 n'
      = match View s n' with
        | Some w => Some w
        | None => if String.eqb n n' then Some v else None
        end.
Proof.
  destruct (NewView_fields s n f o) as (v & snapshot & Hres & Hviews & _ & _ & _ & _ & Hn & _).
  exists v, snapshot. split; [done|]. intros n'. unfold View.
  by rewrite Hviews, find_snoc, Hn.
Qed.

(** ** Shutting the session down *)

(** X9.  After [Shutdown] the session routes nothing: [ViewOf] fails for
    every URI, [View] finds no name, [viewsOf] returns no view.  The
    overlays are not touched: the files that were open are still open. *)
Theorem Shutdown_leaves_no_view s uri n :
  ViewOf (Shutdown s) uri = (Shutdown s, Err (Errorf "no views in the session" [])) /\
  View (Shutdown s) n = None /\
  viewsOf (Shutdown s) uri = [] /\
  IsOpen (Shutdown s) uri = IsOpen s uri.
Proof.
  unfold Shutdown. destruct (shutdownAll (views s) (world s) (objects s)) as [w h].
  repeat split.
Qed.

(** ** Modifications and routing *)

(** X10.  A modification of a file, whether it succeeds or fails, changes
    neither the list of views nor the memo: every URI is routed afterwards
    as it was before. *)
Theorem DidModifyFile_keeps_the_routing s c uri :
  (viewOf (DidModifyFile s c).1 uri).2 = (viewOf s uri).2 /\
  viewsOf (DidModifyFile s c).1 uri = viewsOf s uri /\
  Views (DidModifyFile s c).1 = Views s.
Proof.
  destruct (DidModifyFile_fields s c) as (Hv & Hm & _). split; [|split].
  - by apply viewOf_ext.
  - unfold viewsOf. by rewrite Hv.
  - done.
Qed.

Lemma viewsOf_nil s uri :
  Forall (fun v => HasPrefix uri (folder v) = false) (views s) -> viewsOf s uri = [].
Proof.
  unfold viewsOf. induction (views s) as [|v vs IH]; simpl; [done|].
  intros [-> Hvs]%Forall_cons. by apply IH.
Qed.

(** X11.  A modification of a file that lies under the folder of no view
    succeeds once the overlay is updated, with an empty list of snapshots:
    no view is asked and no view object changes. *)
Theorem DidModifyFile_outside_every_view s c w ov :
  updateOverlay (world s) (overlays s) c = (w, ov, None) ->
  Forall (fun v => HasPrefix (modURI c) (folder v) = false) (views s) ->
  DidModifyFile s c = (with_world w (with_overlays ov s), Ok []).
Proof.
  intros Hupd Hnone. unfold DidModifyFile. rewrite Hupd.
  rewrite (viewsOf_nil (with_world w (with_overlays ov s))) by done. done.
Qed.

(** X12.  In a state a session goes through with no view in it,
    [DidChangeOutOfBand] reports [false] and changes nothing. *)
Theorem DidChangeOutOfBand_without_views s uri a :
  reachable s -> views s = [] -> DidChangeOutOfBand s uri a = (s, false).
Proof.
  intros Hreach Hviews.
  pose proof (viewOf_without_views s uri Hreach) as Hcall.
  rewrite Hviews in Hcall. unfold DidChangeOutOfBand. by rewrite Hcall.
Qed.

(** X13.  A change out of band to a file that lies under the folder of no
    view is not dropped: the session routes it to the first view of its
    list, whose content is invalidated as soon as that view can open the
    file, and reports [true]. *)
Theorem DidChangeOutOfBand_falls_back_to_the_first_view
    s uri a first rest w1 st1 f w2 st2 snapshot :
  reachable s ->
  views s = first :: rest ->
  Forall (fun v => HasPrefix uri (folder v) = false) (views s) ->
  getFileLocked (world s) (objects s !!! ptr first) uri = (w1, st1, Ok f) ->
  invalidateContent w1 st1 (fileURI f) (kind f) a = (w2, st2, snapshot) ->
  (DidChangeOutOfBand s uri a).2 = true /\
  objects (DidChangeOutOfBand s uri a).1 = <[ptr first := st2]> (objects s) /\
  world (DidChangeOutOfBand s uri a).1 = w2.
Proof.
  intros Hreach Hviews Hnone Hget Hinv.
  pose proof (reachable_sound s Hreach) as Hs.
  pose proof (viewOf_is_bestView s uri Hs) as Hres.
  rewrite bestView_result, bestViewStep_no_match, Hviews in Hres by done.
  simpl in Hres. destruct (viewOf_fields s uri) as (_ & _ & _ & Hobj & Hw).
  unfold DidChangeOutOfBand. destruct (viewOf s uri) as [s1 r]. simpl in *. subst r.
  rewrite Hw, Hobj, Hget, Hinv. done.
Qed.

End session_more.

(** ** On concrete sessions *)

(** * Properties of the handlers of package [lsp] *)

Section handlers_facts.
Import lsp.
Context `{Features}.

Implicit Types (s : session) (v : view) (uri : URI).

Lemma onView_fields {A} s v (call : World -> ViewState -> World * ViewState * A) :
  views (onView s v call).1 = views s /\
  viewMap (onView s v call).1 = viewMap s /\
  allocated (onView s v call).1 = allocated s.
Proof. unfold onView. by destruct (call _ _) as [[w st] a]. Qed.

(** A state that differs from [s] in what [viewOf] and the calls on the
    views change. *)
Lemma openFile_fields s uri :
  views (openFile s uri).1 = views (viewOf s uri).1 /\
  viewMap (openFile s uri).1 = viewMap (viewOf s uri).1 /\
  allocated (openFile s uri).1 = allocated (viewOf s uri).1.
Proof.
  unfold openFile, ViewOf. destruct (viewOf s uri) as [s1 [v|e]]; [|done].
  pose proof (onView_fields s1 v (fun w st => snapshotGetFile w st uri)) as Hf.
  destruct (onView s1 v _) as [s2 [fh|e]]; exact Hf.
Qed.

Lemma openFile_without_views s uri :
  reachable s -> views s = [] ->
  openFile s uri = (s, Err (Errorf "no views in the session" [])).
Proof.
  intros Hreach Hviews. pose proof (viewOf_without_views s uri Hreach) as Hcall.
  rewrite Hviews in Hcall. unfold openFile, ViewOf. by rewrite Hcall.
Qed.

(** What [openFile] returns, in the terms of the source. *)
Lemma openFile_Ok s uri s2 v fh :
  openFile s uri = (s2, Ok (v, fh)) ->
  exists s1 w st,
    ViewOf s uri = (s1, Ok v) /\
    snapshotGetFile (world s1) (objects s1 !!! ptr v) uri = (w, st, Ok fh) /\
    s2 = with_world w (with_objects (<[ptr v := st]> (objects s1)) s1).
Proof.
  unfold openFile, onView. destruct (ViewOf s uri) as [s1 [v1|e]]; [|done].
  destruct (snapshotGetFile _ _ _) as [[w st] [fh1|e]] eqn:Hget; [|done].
  intros [= <- <- <-]. by exists s1, w, st.
Qed.


(** The routing of [s'] is that of [s], possibly after one more URI has
    been resolved. *)
Lemma routing_kept s s' uri' :
  sound s ->
  (views s' = views s /\ viewMap s' = viewMap s) \/
  (exists uri, views s' = views (viewOf s uri).1 /\ viewMap s' = viewMap (viewOf s uri).1) ->
  (viewOf s' uri').2 = (viewOf s uri').2 /\ views s' = views s.
Proof.
  intros Hs [[Hv Hm]|(uri & Hv & Hm)]; [split; [by apply viewOf_ext|done]|].
  destruct (viewOf_fields s uri) as (Hv1 & _).
  split; [|congruence].
  rewrite (viewOf_ext (viewOf s uri).1 s' uri') by done.
  rewrite !viewOf_is_bestView by auto using sound_viewOf.
  by apply bestView_ext.
Qed.

Ltac handler_cases :=
  repeat match goal with
  | |- context [openFile ?s ?uri] =>
      let Hf := fresh "Hf" in
      pose proof (openFile_fields s uri) as Hf;
      destruct (openFile s uri) as [? [[? ?]|?]]; simpl in Hf
  | |- context [handleKind ?fh] => destruct (handleKind fh)
  | |- context [onView ?s ?v ?call] =>
      let Hf := fresh "Hf" in
      pose proof (onView_fields s v call) as Hf;
      destruct (onView s v call) as [? ?]; simpl in Hf
  | |- context [match ?p with (_, _) => _ end] => is_var p; destruct p
  | |- context [match ?e with Some _ => _ | None => _ end] => is_var e; destruct e
  end.

Lemma formatting_fields s text :
  views (formatting s text).1 = views (viewOf s (NewURI text)).1 /\
  viewMap (formatting s text).1 = viewMap (viewOf s (NewURI text)).1.
Proof. unfold formatting. handler_cases; simpl; intuition congruence. Qed.

Lemma documentSymbol_fields s text :
  views (documentSymbol s text).1 = views (viewOf s (NewURI text)).1 /\
  viewMap (documentSymbol s text).1 = viewMap (viewOf s (NewURI text)).1.
Proof. unfold documentSymbol. handler_cases; simpl; intuition congruence. Qed.

Lemma documentHighlight_fields s text position :
  views (documentHighlight s text position).1 = views (viewOf s (NewURI text)).1 /\
  viewMap (documentHighlight s text position).1 = viewMap (viewOf s (NewURI text)).1.
Proof. unfold documentHighlight. handler_cases; simpl; intuition congruence. Qed.

Lemma implementation_fields s text position :
  views (implementation s text position).1 = views (viewOf s (NewURI text)).1 /\
  viewMap (implementation s text position).1 = viewMap (viewOf s (NewURI text)).1.
Proof. unfold implementation. handler_cases; simpl; intuition congruence. Qed.

Lemma executeCommand_fields s command arguments :
  (views (executeCommand s command arguments).1 = views s /\
   viewMap (executeCommand s command arguments).1 = viewMap s) \/
  exists uri,
    views (executeCommand s command arguments).1 = views (viewOf s uri).1 /\
    viewMap (executeCommand s command arguments).1 = viewMap (viewOf s uri).1.
Proof.
  unfold executeCommand. destruct (String.eqb command "tidy"); [|by left].
  destruct arguments as [|argument [|]]; [by left| |by left].
  destruct argument as [| | |text| |]; try by left.
  right. exists (NewURI text). handler_cases; simpl; intuition congruence.
Qed.

Lemma toProtocolHighlight_fmap (rngs : list Range) :
  toProtocolHighlight rngs = (fun rng => (Text, rng)) <$> rngs.
Proof.
  unfold toProtocolHighlight.
  induction rngs as [|rng rngs IH] using rev_ind; [done|].
  by rewrite foldl_app, fmap_app, IH.
Qed.

(** X22.  In a state a session goes through with no view in it, each of
    the handlers returns the error of [ViewOf] and changes nothing: no
    snapshot is asked for a file and no feature runs. *)
Theorem handlers_fail_without_views s text position :
  reachable s -> views s = [] ->
  formatting s text = (s, Err (Errorf "no views in the session" [])) /\
  documentSymbol s text = (s, Err (Errorf "no views in the session" [])) /\
  documentHighlight s text position = (s, Err (Errorf "no views in the session" [])) /\
  implementation s text position = (s, Err (Errorf "no views in the session" [])) /\
  executeCommand s "tidy" [VString text]
  = (s, Some (Some (Errorf "no views in the session" []))).
Proof.
  intros Hreach Hviews.
  pose proof (openFile_without_views s (NewURI text) Hreach Hviews) as Hopen.
  unfold formatting, documentSymbol, documentHighlight, implementation, executeCommand.
  rewrite Hopen. done.
Qed.

(** X23.  In every state a session goes through, a request leaves the
    routing as it was: after each of the handlers, whatever it returns,
    the session holds the same views and [ViewOf] returns for every URI
    what it returned before. *)
Theorem handlers_keep_the_routing s text position command arguments uri :
  reachable s ->
  let after s' := (ViewOf s' uri).2 = (ViewOf s uri).2 /\ views s' = views s in
  after (formatting s text).1 /\
  after (documentSymbol s text).1 /\
  after (documentHighlight s text position).1 /\
  after (implementation s text position).1 /\
  after (executeCommand s command arguments).1.
Proof.
  intros Hreach after. pose proof (reachable_sound s Hreach) as Hs.
  unfold after, ViewOf.
  split; [|split; [|split; [|split]]]; apply routing_kept; try done.
  - right. exists (NewURI text). apply formatting_fields.
  - right. exists (NewURI text). apply documentSymbol_fields.
  - right. exists (NewURI text). apply documentHighlight_fields.
  - right. exists (NewURI text). apply implementation_fields.
  - apply executeCommand_fields.
Qed.


(** X25.  On a file that is not a Go file (a module file, a [go.sum]
    file) the four handlers that compute over a file succeed with an empty
    result and run no feature: the session is left as [GetFile] on the
    snapshot left it. *)
Theorem handlers_skip_files_that_are_not_Go s text position s1 v w st fh :
  ViewOf s (NewURI text) = (s1, Ok v) ->
  snapshotGetFile (world s1) (objects s1 !!! ptr v) (NewURI text) = (w, st, Ok fh) ->
  handleKind fh <> Go ->
  let s2 := with_world w (with_objects (<[ptr v := st]> (objects s1)) s1) in
  formatting s text = (s2, Ok []) /\
  documentSymbol s text = (s2, Ok []) /\
  documentHighlight s text position = (s2, Ok []) /\
  implementation s text position = (s2, Ok []).
Proof.
  intros Hview Hget Hkind s2.
  unfold formatting, documentSymbol, documentHighlight, implementation, openFile, onView.
  rewrite Hview, Hget. by destruct (handleKind fh).
Qed.

(** X26.  [executeCommand] succeeds in two cases only: the command is
    not [tidy], and then nothing is done; or the command is [tidy] with
    exactly one argument, a string, the file it names is a module file for
    the snapshot of the view that [ViewOf] returns, and [source.ModTidy]
    returned no error on that view. *)
Theorem executeCommand_succeeds_only_on_a_module_file s command arguments s' :
  executeCommand s command arguments = (s', Some None) ->
  (command <> "tidy" /\ s' = s) \/
  (command = "tidy" /\
   exists text s1 v w st fh w' st',
     arguments = [VString text] /\
     ViewOf s (NewURI text) = (s1, Ok v) /\
     snapshotGetFile (world s1) (objects s1 !!! ptr v) (NewURI text) = (w, st, Ok fh) /\
     handleKind fh = Mod /\
     ModTidy w (<[ptr v := st]> (objects s1) !!! ptr v) = (w', st', None)).
Proof.
  unfold executeCommand. destruct (String.eqb_spec command "tidy") as [->|Hne].
  2: { intros [= <-]. by left. }
  intros Hrun. right. split; [done|].
  destruct arguments as [|argument [|]]; [done| |done].
  destruct argument as [| | |text| |]; try done.
  destruct (openFile s (NewURI text)) as [s2 [[v fh]|e]] eqn:Hopen; [|done].
  apply openFile_Ok in Hopen as (s1 & w & st & Hview & Hget & ->).
  destruct (handleKind fh) eqn:Hkind; try done.
  unfold onView in Hrun. simpl in Hrun.
  destruct (ModTidy _ _) as [[w' st'] err] eqn:Htidy.
  injection Hrun as _ ->. by exists text, s1, v, w, st, fh, w', st'.
Qed.

(** X27.  [executeCommand] panics exactly when the command is [tidy] and
    its one argument is not a string: the type assertion on the argument
    follows the count of the arguments and comes before the file is looked
    up.  On every other request it returns. *)
Theorem executeCommand_panics_on_an_argument_that_is_no_string s command arguments :
  (executeCommand s command arguments).2 = None <->
  command = "tidy" /\
  exists argument, arguments = [argument] /\ forall text, argument <> VString text.
Proof.
  unfold executeCommand. destruct (String.eqb_spec command "tidy") as [->|Hne].
  2: { split; [done|]. by intros [? _]. }
  destruct arguments as [|argument [|]].
  - split; [done|]. intros (_ & a & [=] & _).
  - destruct argument as [| | |text| |].
    4: { split.
         - destruct (openFile s (NewURI text)) as [s2 [[v fh]|e]]; [|done].
           destruct (handleKind fh); try done. by destruct (onView s2 v ModTidy).
         - intros (_ & a & [= <-] & Hno). by destruct (Hno text). }
    all: split; [intros _|done]; split; [done|]; eexists; split; [done|]; done.
  - split; [done|]. intros (_ & a & [=] & _).
Qed.

(** X28.  On a Go file [documentHighlight] returns one highlight of kind
    [Text] for each range that [source.Highlight] returned, in the same
    order, also when [source.Highlight] returned an error beside them. *)
Theorem documentHighlight_one_highlight_per_range
    s text position s1 v w st fh w' st' rngs err :
  ViewOf s (NewURI text) = (s1, Ok v) ->
  snapshotGetFile (world s1) (objects s1 !!! ptr v) (NewURI text) = (w, st, Ok fh) ->
  handleKind fh = Go ->
  Highlight w (<[ptr v := st]> (objects s1) !!! ptr v) fh position = (w', st', (rngs, err)) ->
  (documentHighlight s text position).2 = Ok ((fun rng => (Text, rng)) <$> rngs).
Proof.
  intros Hview Hget Hkind Hhigh.
  unfold documentHighlight, openFile, onView. rewrite Hview, Hget. simpl.
  rewrite Hkind. simpl. rewrite Hhigh. simpl. by rewrite toProtocolHighlight_fmap.
Qed.

End handlers_facts.

(** * Properties of [updateAnalyzers] *)

Section updateAnalyzers_facts.
Import hooks.
Context {Analyzer : Type} (Name : Analyzer -> string).

Lemma addAnalyzers_app analyzers (l k : list Analyzer) :
  addAnalyzers Name (addAnalyzers Name analyzers l) k = addAnalyzers Name analyzers (l ++ k).
Proof. unfold addAnalyzers. by rewrite foldl_app. Qed.

Lemma addAnalyzers_other analyzers (suite : list Analyzer) n :
  n ∉ (Name <$> suite) -> addAnalyzers Name analyzers suite !! n = analyzers !! n.
Proof.
  unfold addAnalyzers. induction suite as [|a suite IH] using rev_ind; [done|].
  rewrite fmap_app, foldl_app. simpl. intros Hn.
  rewrite not_elem_of_app, list_elem_of_singleton in Hn. destruct Hn as [Hn Hne].
  rewrite lookup_insert_ne by done. by apply IH.
Qed.

Lemma addAnalyzers_member analyzers (suite : list Analyzer) a :
  a ∈ suite ->
  exists a', addAnalyzers Name analyzers suite !! Name a = Some a' /\
             Name a' = Name a /\ a' ∈ suite.
Proof.
  unfold addAnalyzers. induction suite as [|b suite IH] using rev_ind.
  { by intros ?%elem_of_nil. }
  rewrite foldl_app. simpl. intros Ha.
  destruct (decide (Name b = Name a)) as [Heq|Hne].
  - exists b. rewrite <- Heq, lookup_insert_eq.
    split; [done|]. split; [done|]. apply elem_of_app. right. by constructor.
  - rewrite lookup_insert_ne by done.
    apply elem_of_app in Ha as [Ha|Ha%list_elem_of_singleton]; [|by subst].
    destruct (IH Ha) as (a' & Hl & Hn & Hin). exists a'.
    split; [done|]. split; [done|]. apply elem_of_app. by left.
Qed.

(** X29.  With [StaticCheck] set, [updateAnalyzers] registers the
    analyzers of the three suites: under the name of each of them the map
    holds an analyzer of the suites with that name, and the entries under
    every other name are left as they were.  Without [StaticCheck] the map
    is not changed. *)
Theorem updateAnalyzers_registers_the_suites
    (simple staticcheck stylecheck : list Analyzer) options analyzers :
  let suites := simple ++ staticcheck ++ stylecheck in
  let result := updateAnalyzers Name simple staticcheck stylecheck options analyzers in
  if StaticCheck options then
    (forall a, a ∈ suites ->
       exists a', result !! Name a = Some a' /\ Name a' = Name a /\ a' ∈ suites) /\
    (forall n, n ∉ (Name <$> suites) -> result !! n = analyzers !! n)
  else result = analyzers.
Proof.
  intros suites result. unfold result, updateAnalyzers.
  destruct (StaticCheck options); [|done].
  rewrite !addAnalyzers_app. fold suites. split.
  - intros a. apply addAnalyzers_member.
  - intros n. apply addAnalyzers_other.
Qed.

End updateAnalyzers_facts.

Lemma viewAt_elem s i : i < length (views s) -> viewAt s i ∈ views s.
Proof.
  intros Hi. destruct (lookup_lt_is_Some_2 (views s) i Hi) as [v Hv].
  unfold viewAt. rewrite Hv. simpl. by eapply list_elem_of_lookup_2.
Qed.

Lemma ViewOf_fails_only_without_views_run :
  is_Ok (ViewOf (register fresh ["/a"]) "/zzz").2 = true.
Proof.
  exact (ViewOf_fails_only_without_views (register fresh ["/a"]) "/zzz"
           (fresh_reachable ["/a"])).
Defined.

Lemma ViewOf_returns_a_current_view_run :
  viewAt (register fresh ["/a"; "/a/b"]) 1 ∈ views (register fresh ["/a"; "/a/b"]) /\
  (viewsOf (register fresh ["/a"; "/a/b"]) "/a/b/x.go" <> [] ->
   viewAt (register fresh ["/a"; "/a/b"]) 1
   ∈ viewsOf (register fresh ["/a"; "/a/b"]) "/a/b/x.go").
Proof.
  apply (ViewOf_returns_a_current_view (register fresh ["/a"; "/a/b"]) "/a/b/x.go"
           _ (fresh_reachable ["/a"; "/a/b"])).
  by_evaluation.
Defined.

Lemma views_are_distinct_objects_run :
  NoDup (ptr <$> views (register fresh ["/a"; "/a/b"; "/a/b/c"])) /\
  Forall (fun v => ptr v < allocated (register fresh ["/a"; "/a/b"; "/a/b/c"]))
    (views (register fresh ["/a"; "/a/b"; "/a/b/c"])).
Proof.
  exact (views_are_distinct_objects (register fresh ["/a"; "/a/b"; "/a/b/c"])
           (fresh_reachable ["/a"; "/a/b"; "/a/b/c"])).
Defined.

Lemma removeView_removes_that_view_run :
  let s := register fresh ["/a"; "/a/b"; "/a/b/c"] in
  (removeView s (viewAt s 0)).2 = None /\
  views s ≡ₚ viewAt s 0 :: views (removeView s (viewAt s 0)).1 /\
  viewAt s 0 ∉ views (removeView s (viewAt s 0)).1.
Proof.
  apply (removeView_removes_that_view (register fresh ["/a"; "/a/b"; "/a/b/c"])
           (viewAt (register fresh ["/a"; "/a/b"; "/a/b/c"]) 0)
           (fresh_reachable ["/a"; "/a/b"; "/a/b/c"])).
  apply viewAt_elem. vm_compute. lia.
Defined.

Lemma removeView_of_unknown_view_run :
  removeView (register fresh ["/a"]) (@mkView collaborators 7 "9" options0 "x" tt "/x")
  = (with_viewMap ∅ (register fresh ["/a"]),
     Some (Errorf "view %s for %v not found" [ArgString "x"; ArgString "/x"])).
Proof.
  apply (removeView_of_unknown_view (H:=collaborators)).
  repeat constructor. vm_compute. lia.
Defined.

Lemma updateView_keeps_the_layout_run :
  let s := register fresh ["/a"; "/a/b"] in
  exists v snapshot,
    (updateView s (viewAt s 0) options0).2 = Ok (v, snapshot) /\
    folder <$> views (updateView s (viewAt s 0) options0).1 = folder <$> views s /\
    name <$> views (updateView s (viewAt s 0) options0).1 = name <$> views s /\
    v ∈ views (updateView s (viewAt s 0) options0).1 /\
    (viewAt s 0 ∉ views (updateView s (viewAt s 0) options0).1) /\
    ptr v ∉ (ptr <$> views s).
Proof.
  apply (updateView_keeps_the_layout (register fresh ["/a"; "/a/b"])
           (viewAt (register fresh ["/a"; "/a/b"]) 0) options0
           (fresh_reachable ["/a"; "/a/b"])).
  apply viewAt_elem. vm_compute. lia.
Defined.

Lemma DidModifyFile_outside_every_view_run :
  DidModifyFile (register fresh ["/a"]) ("/b/x.go", true, "package x")
  = (with_world (H:=collaborators) 0 (with_overlays (<["/b/x.go" := "package x"]> ∅) (register fresh ["/a"])),
     Ok []).
Proof.
  apply (DidModifyFile_outside_every_view (H:=collaborators) (register fresh ["/a"])
           ("/b/x.go", true, "package x")); [reflexivity|].
  repeat constructor.
Defined.

Lemma DidChangeOutOfBand_without_views_run :
  DidChangeOutOfBand fresh "/a/x.go" true = (fresh, false).
Proof.
  apply (DidChangeOutOfBand_without_views fresh "/a/x.go" true
           (reachable_empty (H:=collaborators) options0 0 0)).
  reflexivity.
Defined.

Lemma DidChangeOutOfBand_falls_back_to_the_first_view_run :
  let s := register fresh ["/a"] in
  (DidChangeOutOfBand s "/b/x.go" true).2 = true /\
  objects (DidChangeOutOfBand s "/b/x.go" true).1 = <[0 := ("1", 1)]> (objects s) /\
  world (DidChangeOutOfBand s "/b/x.go" true).1 = 0.
Proof.
  apply (DidChangeOutOfBand_falls_back_to_the_first_view (register fresh ["/a"])
           "/b/x.go" true (viewAt (register fresh ["/a"]) 0) [] 0 ("1", 0)
           ("/b/x.go", Go) 0 ("1", 1) ("1", 1) (fresh_reachable ["/a"]));
    try reflexivity.
  repeat constructor.
Defined.

(** ** The handlers on concrete sessions *)

Import lsp features.

Lemma handlers_fail_without_views_run :
  formatting fresh "/a/x.go" = (fresh, Err (Errorf "no views in the session" [])) /\
  documentSymbol fresh "/a/x.go" = (fresh, Err (Errorf "no views in the session" [])) /\
  documentHighlight fresh "/a/x.go" 0 = (fresh, Err (Errorf "no views in the session" [])) /\
  implementation fresh "/a/x.go" 0 = (fresh, Err (Errorf "no views in the session" [])) /\
  executeCommand fresh "tidy" [VString "/a/x.go"]
  = (fresh, Some (Some (Errorf "no views in the session" []))).
Proof.
  apply (handlers_fail_without_views (H0:=features) fresh "/a/x.go" 0
           (reachable_empty (H:=collaborators) options0 0 0)).
  reflexivity.
Defined.

(** After a request for the symbols of [/a/b/x.go], which resolves that
    URI, [/a/y.go] is routed as before. *)
Lemma handlers_keep_the_routing_run :
  let s := register fresh ["/a"; "/a/b"] in
  (ViewOf (documentSymbol s "/a/b/x.go").1 "/a/y.go").2 = (ViewOf s "/a/y.go").2 /\
  views (documentSymbol s "/a/b/x.go").1 = views s.
Proof.
  exact (proj1 (proj2
    (handlers_keep_the_routing (H0:=features) (register fresh ["/a"; "/a/b"])
       "/a/b/x.go" 0 "tidy" [] "/a/y.go" (fresh_reachable ["/a"; "/a/b"])))).
Defined.


Lemma handlers_skip_files_that_are_not_Go_run :
  let s := register fresh ["/a"] in
  (formatting s "/a/go.mod").2 = Ok [] /\
  (documentSymbol s "/a/go.mod").2 = Ok [] /\
  (documentHighlight s "/a/go.mod" 0).2 = Ok [] /\
  (implementation s "/a/go.mod" 0).2 = Ok [].
Proof.
  destruct (handlers_skip_files_that_are_not_Go (H0:=features)
              (register fresh ["/a"]) "/a/go.mod" 0
              (ViewOf (register fresh ["/a"]) "/a/go.mod").1
              (viewAt (register fresh ["/a"]) 0) 0 ("1", 0) (inr "/a/go.mod"))
    as (Hf & Hs & Hh & Hi); [by_evaluation|by_evaluation|by vm_compute|].
  exact (conj (f_equal snd Hf) (conj (f_equal snd Hs) (conj (f_equal snd Hh) (f_equal snd Hi)))).
Defined.

Lemma executeCommand_succeeds_only_on_a_module_file_run :
  let s := register fresh ["/a"] in
  exists text fh,
    [VString "/a/go.mod"] = [VString text] /\
    handleKind fh = Mod /\
    exists s1 v, ViewOf s (NewURI text) = (s1, Ok v).
Proof.
  destruct (executeCommand_succeeds_only_on_a_module_file (H0:=features)
              (register fresh ["/a"]) "tidy" [VString "/a/go.mod"]
              (executeCommand (register fresh ["/a"]) "tidy" [VString "/a/go.mod"]).1)
    as [[Hne _]|(_ & text & s1 & v & w & st & fh & w' & st' & Hargs & Hview & _ & Hkind & _)].
  - by_evaluation.
  - done.
  - exists text, fh. split; [done|]. split; [done|]. by exists s1, v.
Defined.

Lemma documentHighlight_one_highlight_per_range_run :
  (documentHighlight (register fresh ["/a"]) "/a/x.go" 0).2 = Ok [(Text, (1, 2))].
Proof.
  apply (documentHighlight_one_highlight_per_range (H0:=features)
           (register fresh ["/a"]) "/a/x.go" 0
           (ViewOf (register fresh ["/a"]) "/a/x.go").1
           (viewAt (register fresh ["/a"]) 0) 0 ("1", 0) (inr "/a/x.go")
           0 ("1", 0) [(1, 2)] None); by_evaluation.
Defined.

(** ** The options on a concrete batch *)

Lemma SetOptions_order_irrelevant_run :
  let env := [("A", VString "1"); ("B", VString "2")] in
  let env' := [("B", VString "2"); ("A", VString "1")] in
  let out := SetOptions (DefaultOptions []) (VObject [("env", VObject env); ("staticcheck", VBool true)]) in
  let out' := SetOptions (DefaultOptions []) (VObject [("staticcheck", VBool true); ("env", VObject env')]) in
  with_Env [] out'.1 = with_Env [] out.1 /\
  (exists added added',
     Env out.1 = Env (DefaultOptions []) ++ added /\
     Env out'.1 = Env (DefaultOptions []) ++ added' /\ added ≡ₚ added') /\
  (exists middle, out.2 ≡ₚ middle /\ Forall2 sameResult middle out'.2) /\
  ([("env", VObject env); ("staticcheck", VBool true)]
   ≡ₚ [("staticcheck", VBool true); ("env", VObject env')] -> out'.1 = out.1).
Proof.
  apply (SetOptions_order_irrelevant (H:=runtime) (DefaultOptions [])
           [("env", VObject [("A", VString "1"); ("B", VString "2")]);
            ("staticcheck", VBool true)]
           [("staticcheck", VBool true);
            ("env", VObject [("B", VString "2"); ("A", VString "1")])]).
  - apply NoDup_cons. split; [|apply NoDup_singleton].
    by intros Hin%list_elem_of_singleton.
  - exists [("staticcheck", VBool true);
            ("env", VObject [("A", VString "1"); ("B", VString "2")])].
    split; [apply perm_swap|].
    repeat constructor.
Defined.
